(** * The room engine of OpenTogetherTube, embedded in Rocq

    The development follows the server's classes [RoomUser] and [Room].  A
    room is a record, every method is a function in a small
    state-and-exception monad, and the collaborators that live outside the
    room engine (the grants table, the user store, the video extractor) are
    the fields of a type class.  The message bus is part of the state: a
    key/value store and the list of messages published so far.  Wall-clock
    time is an argument, in milliseconds, of the methods that read the
    clock; numbers of seconds are exact rationals.  The client manager,
    which turns socket messages into requests, is not part of it. *)

From Stdlib Require Import QArith Sorted.
From stdpp Require Import gmap strings list fin_maps.
Close Scope Q_scope.

Set Default Proof Using "Type".

(** ** Plain data *)

(** [ClientId] is a string in the source ([_.uniqueId()]). *)
Abbreviation ClientId := string.

(** Modelled from the spec: enum [Role] is declared outside the room engine;
    the spec orders it
    [UnregisteredUser < RegisteredUser < TrustedUser < Moderator <
     Administrator < Owner]. *)
Inductive Role :=
  | UnregisteredUser | RegisteredUser | TrustedUser
  | Moderator | Administrator | Owner.

Definition roleRank (r : Role) : Z :=
  match r with
  | UnregisteredUser => 0 | RegisteredUser => 1 | TrustedUser => 2
  | Moderator => 3 | Administrator => 4 | Owner => 5
  end.

Global Instance Role_eq_dec : EqDecision Role.
Proof. solve_decision. Defined.

Global Instance Role_countable : Countable Role.
Proof.
  refine (inj_countable' (λ r, Z.to_nat (roleRank r))
            (λ n, match n with
                  | 0 => UnregisteredUser | 1 => RegisteredUser
                  | 2 => TrustedUser | 3 => Moderator
                  | 4 => Administrator | _ => Owner
                  end) _).
  by intros [].
Defined.

Inductive PlayerStatus := StatusNone | StatusReady | StatusBuffering | StatusError.
Inductive Visibility := Public | Unlisted.
(** [OtherMode] stands for the queue modes besides [Manual] and [Vote]; the
    room engine only ever tests for [Vote]. *)
Inductive QueueMode := Manual | Vote | OtherMode.

Global Instance QueueMode_eq_dec : EqDecision QueueMode.
Proof. solve_decision. Defined.

Record User := { u_id : Z; u_username : string }.

Record VideoId := { vi_service : string; vi_id : string }.

(** A [Video] is a [VideoId] with metadata; the engine reads [length] only,
    and the metadata is optional in the source's type. *)
Record Video := { v_service : string; v_id : string; v_length : option Q }.

Definition videoOfId (v : VideoId) : Video :=
  {| v_service := vi_service v; v_id := vi_id v; v_length := None |}.

Record ClientInfo := {
  ci_id : ClientId;
  ci_user_id : option Z;
  ci_username : option string;
  ci_status : option PlayerStatus;
}.

Record RoomUserInfo := {
  rui_id : ClientId;
  rui_name : string;
  rui_isLoggedIn : bool;
  rui_status : PlayerStatus;
  rui_role : Role;
}.

(** JavaScript truthiness of an optional number and of an optional string. *)
Definition truthyNum (n : option Z) : bool :=
  match n with Some z => negb (z =? 0)%Z | None => false end.

Definition truthyStr (s : option string) : bool :=
  match s with Some s => negb (String.eqb s "") | None => false end.

(** ** Outcomes and the monad *)

Inductive Exn :=
  | PermissionDenied | VideoAlreadyQueued | VideoNotFound
  | ImpossiblePromotion
  | TypeError          (* a property read on [undefined] *)
  | UpstreamFailure.   (* a collaborator's promise was rejected *)

(** [Stuck] marks the places where the model stops following the source:
    [UndefinedValue] when the source stores [undefined] into a field whose
    declared type has no such value, [Depth] when the nesting bound of
    [processRequestN] is used up. *)
Inductive StuckReason := UndefinedValue | Depth.

Inductive Outcome (A : Type) :=
  | Ok (a : A)
  | Throw (e : Exn)
  | Stuck (why : StuckReason).
Arguments Ok {A} a.
Arguments Throw {A} e.
Arguments Stuck {A} why.

Definition M (St A : Type) : Type := St → Outcome A * St.

Definition ret {St A} (a : A) : M St A := λ s, (Ok a, s).
Definition throw {St A} (e : Exn) : M St A := λ s, (Throw e, s).
Definition stuck {St A} (why : StuckReason) : M St A := λ s, (Stuck why, s).
Definition bind {St A B} (c : M St A) (k : A → M St B) : M St B :=
  λ s, match c s with
       | (Ok a, s') => k a s'
       | (Throw e, s') => (Throw e, s')
       | (Stuck w, s') => (Stuck w, s')
       end.
Definition modify {St} (f : St → St) : M St unit := λ s, (Ok tt, f s).
Definition when {St} (b : bool) (c : M St unit) : M St unit :=
  if b then c else ret tt.

Notation "x <- c ;; k" := (bind c (λ x, k))
  (at level 100, c at next level, right associativity).
Notation "c ;; k" := (bind c (λ _, k))
  (at level 100, right associativity).

(** ** Collaborators *)

(** The parts of the server the room engine calls but does not define.  A
    rejected promise is [None]. *)
Class Collaborators := {
  (** [permissions.js]: the grants object of a room *)
  Grants : Type;
  (** [Grants.check(role, permission)]: [true] when the call returns,
      [false] when it throws [PermissionDeniedException]; the permission
      is [None] where the source passes [undefined] *)
  grantsCheck : Grants → Role → option string → bool;
  (** [Grants.getMask(role)] *)
  getMask : Grants → Role → Z;
  (** [new Grants()] *)
  newGrants : Grants;
  (** [usermanager.getUser({ id })] *)
  usermanager_getUser : Z → option User;
  (** [InfoExtract.getServiceAdapterForURL(url)], with the adapter's
      [serviceId] and [getVideoId(url)] *)
  getServiceAdapterForURL : string → option VideoId;
  (** [InfoExtract.getVideoInfo(service, id)] *)
  getVideoInfo : string → string → option Video;
  (** [InfoExtract.getManyVideoInfo(videos)] *)
  getManyVideoInfo : list VideoId → option (list Video);
}.

(** ** RoomUser *)

Record RoomUser := {
  ru_id : ClientId;
  ru_user_id : option Z;
  unregisteredUsername : string;
  ru_user : option User;
  playerStatus : PlayerStatus;
}.

(** [new RoomUser(id)] *)
Definition newRoomUser (id : ClientId) : RoomUser :=
  {| ru_id := id; ru_user_id := None; unregisteredUsername := "";
     ru_user := None; playerStatus := StatusNone |}.

Definition isLoggedIn (u : RoomUser) : bool := truthyNum (ru_user_id u).

Definition username (u : RoomUser) : string :=
  match isLoggedIn u, ru_user u with
  | true, Some usr => u_username usr
  | _, _ => unregisteredUsername u
  end.

Definition set_user_id (x : option Z) (u : RoomUser) : RoomUser :=
  {| ru_id := ru_id u; ru_user_id := x;
     unregisteredUsername := unregisteredUsername u;
     ru_user := ru_user u; playerStatus := playerStatus u |}.
Definition set_user (x : option User) (u : RoomUser) : RoomUser :=
  {| ru_id := ru_id u; ru_user_id := ru_user_id u;
     unregisteredUsername := unregisteredUsername u;
     ru_user := x; playerStatus := playerStatus u |}.
Definition set_unregisteredUsername (x : string) (u : RoomUser) : RoomUser :=
  {| ru_id := ru_id u; ru_user_id := ru_user_id u;
     unregisteredUsername := x;
     ru_user := ru_user u; playerStatus := playerStatus u |}.
Definition set_playerStatus (x : PlayerStatus) (u : RoomUser) : RoomUser :=
  {| ru_id := ru_id u; ru_user_id := ru_user_id u;
     unregisteredUsername := unregisteredUsername u;
     ru_user := ru_user u; playerStatus := x |}.

Section RoomUserMethods.
Context {C : Collaborators}.

(** [RoomUser.updateInfo] *)
Definition updateInfo (info : ClientInfo) : M RoomUser unit :=
  (if truthyNum (ci_user_id info) then
     modify (set_user_id (ci_user_id info)) ;;
     match usermanager_getUser (default 0%Z (ci_user_id info)) with
     | Some usr => modify (set_user (Some usr))
     | None => throw UpstreamFailure
     end
   else if truthyStr (ci_username info) then
     modify (set_unregisteredUsername (default "" (ci_username info))) ;;
     modify (set_user_id None) ;;
     modify (set_user None)
   else ret tt) ;;
  match ci_status info with
  | Some st => modify (set_playerStatus st)
  | None => ret tt
  end.
End RoomUserMethods.

(** ** Requests, events and messages *)

(** The keys of [RoomState], which are also the names [markDirty] takes. *)
Inductive Field :=
  | F_name | F_title | F_description | F_isTemporary | F_visibility
  | F_queueMode | F_currentSource | F_queue | F_isPlaying
  | F_playbackPosition | F_grants | F_users | F_voteCounts | F_owner.

Global Instance Field_eq_dec : EqDecision Field.
Proof. solve_decision. Defined.

Definition fieldIndex (f : Field) : nat :=
  match f with
  | F_name => 0 | F_title => 1 | F_description => 2 | F_isTemporary => 3
  | F_visibility => 4 | F_queueMode => 5 | F_currentSource => 6
  | F_queue => 7 | F_isPlaying => 8 | F_playbackPosition => 9
  | F_grants => 10 | F_users => 11 | F_voteCounts => 12 | F_owner => 13
  end.

Definition fieldOfIndex (n : nat) : Field :=
  match n with
  | 0 => F_name | 1 => F_title | 2 => F_description | 3 => F_isTemporary
  | 4 => F_visibility | 5 => F_queueMode | 6 => F_currentSource
  | 7 => F_queue | 8 => F_isPlaying | 9 => F_playbackPosition
  | 10 => F_grants | 11 => F_users | 12 => F_voteCounts | _ => F_owner
  end.

Global Instance Field_countable : Countable Field.
Proof. refine (inj_countable' fieldIndex fieldOfIndex _). by intros []. Defined.

(** [RoomEventContext]: what [publishRoomEvent] attaches to an event, and
    what an [UndoRequest] hands back. *)
Record RoomEventContext := {
  ctx_video : option Video;
  ctx_videos : option (list Video);
  ctx_prevPosition : option Q;
  ctx_queueIdx : option Z;
}.

Definition noContext : RoomEventContext :=
  {| ctx_video := None; ctx_videos := None;
     ctx_prevPosition := None; ctx_queueIdx := None |}.

(** [RoomRequest], a union tagged by [type] in the source.  The two
    arguments of [UndoRequest] after the client are [event.request] and
    [event.additional].  The video of a [RemoveRequest] is optional because
    [undo] builds one from whatever the add event it is given carries. *)
Inductive RoomRequest :=
  | JoinRequest (client : ClientId) (info : ClientInfo)
  | LeaveRequest (client : ClientId)
  | PlaybackRequest (client : ClientId) (state : bool)
  | SkipRequest (client : ClientId)
  | SeekRequest (client : ClientId) (value : option Q)
  | AddRequest (client : ClientId) (url : option string)
      (video : option VideoId) (videos : option (list VideoId))
  | RemoveRequest (client : ClientId) (video : option VideoId)
  | OrderRequest (client : ClientId) (fromIdx toIdx : Z)
  | VoteRequest (client : ClientId) (video : VideoId) (add : bool)
  | PromoteRequest (client : ClientId) (targetClientId : ClientId) (role : Role)
  | UpdateUser (client : ClientId) (info : ClientInfo)
  | ChatRequest (client : ClientId) (text : string)
  | UndoRequest (client : ClientId) (evRequest : RoomRequest)
      (evAdditional : RoomEventContext).

Inductive RoomRequestType :=
  | TJoinRequest | TLeaveRequest | TPlaybackRequest | TSkipRequest
  | TSeekRequest | TAddRequest | TRemoveRequest | TOrderRequest
  | TVoteRequest | TPromoteRequest | TUpdateUser | TChatRequest
  | TUndoRequest.

Definition requestType (request : RoomRequest) : RoomRequestType :=
  match request with
  | JoinRequest _ _ => TJoinRequest
  | LeaveRequest _ => TLeaveRequest
  | PlaybackRequest _ _ => TPlaybackRequest
  | SkipRequest _ => TSkipRequest
  | SeekRequest _ _ => TSeekRequest
  | AddRequest _ _ _ _ => TAddRequest
  | RemoveRequest _ _ => TRemoveRequest
  | OrderRequest _ _ _ => TOrderRequest
  | VoteRequest _ _ _ => TVoteRequest
  | PromoteRequest _ _ _ => TPromoteRequest
  | UpdateUser _ _ => TUpdateUser
  | ChatRequest _ _ => TChatRequest
  | UndoRequest _ _ _ => TUndoRequest
  end.

Definition requestClient (request : RoomRequest) : ClientId :=
  match request with
  | JoinRequest c _ | LeaveRequest c | PlaybackRequest c _ | SkipRequest c
  | SeekRequest c _ | AddRequest c _ _ _ | RemoveRequest c _
  | OrderRequest c _ _ | VoteRequest c _ _ | PromoteRequest c _ _
  | UpdateUser c _ | ChatRequest c _ | UndoRequest c _ _ => c
  end.

(** [userRoles]: a [Map] whose three keys the constructor fixes and no
    method adds to or removes from, so one set per key. *)
Record UserRoles := {
  trustedUsers : gset Z;
  moderators : gset Z;
  administrators : gset Z;
}.

(** [userRoles.get(role)] *)
Definition rolesGet (ur : UserRoles) (r : Role) : option (gset Z) :=
  match r with
  | TrustedUser => Some (trustedUsers ur)
  | Moderator => Some (moderators ur)
  | Administrator => Some (administrators ur)
  | _ => None
  end.

(** The effect of a method of the set [userRoles.get(role)] *)
Definition rolesAlter (f : gset Z → gset Z) (r : Role) (ur : UserRoles) : UserRoles :=
  match r with
  | TrustedUser =>
      {| trustedUsers := f (trustedUsers ur); moderators := moderators ur;
         administrators := administrators ur |}
  | Moderator =>
      {| trustedUsers := trustedUsers ur; moderators := f (moderators ur);
         administrators := administrators ur |}
  | Administrator =>
      {| trustedUsers := trustedUsers ur; moderators := moderators ur;
         administrators := f (administrators ur) |}
  | _ => ur
  end.

Section Engine.
Context {C : Collaborators}.

(** ** The room *)

Record Room := {
  name : string;
  title : string;
  description : string;
  visibility : Visibility;
  queueMode : QueueMode;
  isTemporary : bool;
  currentSource : option Video;
  queue : list Video;
  isPlaying : bool;
  playbackPosition : Q;
  grants : Grants;
  realusers : list RoomUser;
  userRoles : UserRoles;
  owner : option User;
  dirty : gset Field;
  playbackStart : option Z;      (* [_playbackStart], in milliseconds *)
  keepAlivePing : Z;             (* [_keepAlivePing], in milliseconds *)
  votes : gmap string (gset string);
}.

(** A value of a field of [RoomState], or of a sync message. *)
Inductive Value :=
  | VStr (s : string)
  | VBool (b : bool)
  | VNum (q : Q)
  | VVisibility (v : Visibility)
  | VQueueMode (m : QueueMode)
  | VVideo (v : option Video)
  | VVideos (l : list Video)
  | VGrants (g : Grants)
  | VMask (m : Z)
  | VUsers (l : list RoomUserInfo)
  | VCounts (c : gmap string nat)
  | VUser (o : option User).

(** [ServerMessage], as far as a room publishes it. *)
Inductive ServerMessage :=
  | MsgSync (fields : gmap Field Value)
  | MsgEvent (request : RoomRequest) (user : option RoomUserInfo)
      (additional : option RoomEventContext)
  | MsgChat (from : option RoomUserInfo) (text : string)
  | MsgUnload.

(** A grants check the room asked for: a call of [grants.check]. *)
Record CheckCall := { chk_role : Role; chk_permission : option string }.

(** The room together with what it has done to the bus: the keys written
    with [set], the messages handed to [publish] (oldest first), and the
    calls of [grants.check] (oldest first). *)
Record World := {
  room : Room;
  kv : gmap string (gmap Field Value);
  published : list (string * ServerMessage);
  checks : list CheckCall;
}.

(** *** Field updates *)

Definition upd_currentSource (x : option Video) (r : Room) : Room :=
  {| name := name r; title := title r; description := description r;
     visibility := visibility r; queueMode := queueMode r;
     isTemporary := isTemporary r; currentSource := x; queue := queue r;
     isPlaying := isPlaying r; playbackPosition := playbackPosition r;
     grants := grants r; realusers := realusers r; userRoles := userRoles r;
     owner := owner r; dirty := dirty r; playbackStart := playbackStart r;
     keepAlivePing := keepAlivePing r; votes := votes r |}.
Definition upd_queue (x : list Video) (r : Room) : Room :=
  {| name := name r; title := title r; description := description r;
     visibility := visibility r; queueMode := queueMode r;
     isTemporary := isTemporary r; currentSource := currentSource r; queue := x;
     isPlaying := isPlaying r; playbackPosition := playbackPosition r;
     grants := grants r; realusers := realusers r; userRoles := userRoles r;
     owner := owner r; dirty := dirty r; playbackStart := playbackStart r;
     keepAlivePing := keepAlivePing r; votes := votes r |}.
Definition upd_isPlaying (x : bool) (r : Room) : Room :=
  {| name := name r; title := title r; description := description r;
     visibility := visibility r; queueMode := queueMode r;
     isTemporary := isTemporary r; currentSource := currentSource r;
     queue := queue r;
     isPlaying := x; playbackPosition := playbackPosition r;
     grants := grants r; realusers := realusers r; userRoles := userRoles r;
     owner := owner r; dirty := dirty r; playbackStart := playbackStart r;
     keepAlivePing := keepAlivePing r; votes := votes r |}.
Definition upd_playbackPosition (x : Q) (r : Room) : Room :=
  {| name := name r; title := title r; description := description r;
     visibility := visibility r; queueMode := queueMode r;
     isTemporary := isTemporary r; currentSource := currentSource r;
     queue := queue r;
     isPlaying := isPlaying r; playbackPosition := x;
     grants := grants r; realusers := realusers r; userRoles := userRoles r;
     owner := owner r; dirty := dirty r; playbackStart := playbackStart r;
     keepAlivePing := keepAlivePing r; votes := votes r |}.
Definition upd_realusers (x : list RoomUser) (r : Room) : Room :=
  {| name := name r; title := title r; description := description r;
     visibility := visibility r; queueMode := queueMode r;
     isTemporary := isTemporary r; currentSource := currentSource r;
     queue := queue r;
     isPlaying := isPlaying r; playbackPosition := playbackPosition r;
     grants := grants r; realusers := x; userRoles := userRoles r;
     owner := owner r; dirty := dirty r; playbackStart := playbackStart r;
     keepAlivePing := keepAlivePing r; votes := votes r |}.
Definition upd_userRoles (x : UserRoles) (r : Room) : Room :=
  {| name := name r; title := title r; description := description r;
     visibility := visibility r; queueMode := queueMode r;
     isTemporary := isTemporary r; currentSource := currentSource r;
     queue := queue r;
     isPlaying := isPlaying r; playbackPosition := playbackPosition r;
     grants := grants r; realusers := realusers r; userRoles := x;
     owner := owner r; dirty := dirty r; playbackStart := playbackStart r;
     keepAlivePing := keepAlivePing r; votes := votes r |}.
Definition upd_dirty (x : gset Field) (r : Room) : Room :=
  {| name := name r; title := title r; description := description r;
     visibility := visibility r; queueMode := queueMode r;
     isTemporary := isTemporary r; currentSource := currentSource r;
     queue := queue r;
     isPlaying := isPlaying r; playbackPosition := playbackPosition r;
     grants := grants r; realusers := realusers r; userRoles := userRoles r;
     owner := owner r; dirty := x; playbackStart := playbackStart r;
     keepAlivePing := keepAlivePing r; votes := votes r |}.
Definition upd_playbackStart (x : option Z) (r : Room) : Room :=
  {| name := name r; title := title r; description := description r;
     visibility := visibility r; queueMode := queueMode r;
     isTemporary := isTemporary r; currentSource := currentSource r;
     queue := queue r;
     isPlaying := isPlaying r; playbackPosition := playbackPosition r;
     grants := grants r; realusers := realusers r; userRoles := userRoles r;
     owner := owner r; dirty := dirty r; playbackStart := x;
     keepAlivePing := keepAlivePing r; votes := votes r |}.
Definition upd_keepAlivePing (x : Z) (r : Room) : Room :=
  {| name := name r; title := title r; description := description r;
     visibility := visibility r; queueMode := queueMode r;
     isTemporary := isTemporary r; currentSource := currentSource r;
     queue := queue r;
     isPlaying := isPlaying r; playbackPosition := playbackPosition r;
     grants := grants r; realusers := realusers r; userRoles := userRoles r;
     owner := owner r; dirty := dirty r; playbackStart := playbackStart r;
     keepAlivePing := x; votes := votes r |}.
Definition upd_votes (x : gmap string (gset string)) (r : Room) : Room :=
  {| name := name r; title := title r; description := description r;
     visibility := visibility r; queueMode := queueMode r;
     isTemporary := isTemporary r; currentSource := currentSource r;
     queue := queue r;
     isPlaying := isPlaying r; playbackPosition := playbackPosition r;
     grants := grants r; realusers := realusers r; userRoles := userRoles r;
     owner := owner r; dirty := dirty r; playbackStart := playbackStart r;
     keepAlivePing := keepAlivePing r; votes := x |}.

Definition onRoom (f : Room → Room) : M World unit :=
  modify (λ w, {| room := f (room w); kv := kv w;
                  published := published w; checks := checks w |}).
Definition getRoom : M World Room := λ w, (Ok (room w), w).

(** ** Methods of [Room] *)

(** [markDirty(prop)].  The call of [throttledSync] sets a timer that runs
    [sync] later; here [sync] is a step of its own. *)
Definition markDirty (prop : Field) : M World unit :=
  onRoom (λ r, upd_dirty ({[prop]} ∪ dirty r) r).

(** The property setters: assign, then [markDirty]. *)
Definition set_currentSource (v : option Video) : M World unit :=
  onRoom (upd_currentSource v) ;; markDirty F_currentSource.
Definition set_isPlaying (b : bool) : M World unit :=
  onRoom (upd_isPlaying b) ;; markDirty F_isPlaying.
Definition set_playbackPosition (q : Q) : M World unit :=
  onRoom (upd_playbackPosition q) ;; markDirty F_playbackPosition.

(** [dequeueNext] *)
Definition dequeueNext : M World unit :=
  r <- getRoom ;;
  match queue r with
  | v :: rest =>
      onRoom (upd_queue rest) ;; set_currentSource (Some v) ;;
      markDirty F_queue ;;
      set_playbackPosition 0%Q
  | [] =>
      match currentSource r with
      | Some _ =>
          when (isPlaying r) (set_isPlaying false) ;;
          set_playbackPosition 0%Q ;;
          set_currentSource None
      | None => ret tt
      end
  end.

(** [publish(msg)]: to the channel [room:{name}] *)
Definition publish (msg : ServerMessage) : M World unit :=
  modify (λ w, {| room := room w; kv := kv w;
                  published := published w ++ [("room:" +:+ name (room w), msg)];
                  checks := checks w |}).

(** [isOwner(user)] *)
Definition isOwner (r : Room) (u : RoomUser) : bool :=
  match ru_user u, owner r with
  | Some usr, Some o => (u_id usr =? u_id o)%Z
  | _, _ => false
  end.

(** [getRole(user)], for a user that is there; the loop runs from
    [Administrator] down to [TrustedUser]. *)
Definition getRole (r : Room) (u : RoomUser) : Role :=
  if isOwner r u then Owner
  else
    let inRole (i : Role) : bool :=
      match ru_user u, rolesGet (userRoles r) i with
      | Some usr, Some s => bool_decide (u_id usr ∈ s)
      | _, _ => false
      end in
    if inRole Administrator then Administrator
    else if inRole Moderator then Moderator
    else if inRole TrustedUser then TrustedUser
    else if isLoggedIn u then RegisteredUser
    else UnregisteredUser.

(** The getter [users] *)
Definition users (r : Room) : list RoomUserInfo :=
  (λ u, {| rui_id := ru_id u; rui_name := username u;
           rui_isLoggedIn := isLoggedIn u; rui_status := playerStatus u;
           rui_role := getRole r u |}) <$> realusers r.

(** [getUser(client)]: [None] is the source's [undefined] *)
Definition getUser (r : Room) (client : ClientId) : option RoomUser :=
  List.find (λ u, String.eqb (ru_id u) client) (realusers r).

(** [getUserInfo(client)] *)
Definition getUserInfo (r : Room) (client : ClientId) : option RoomUserInfo :=
  List.find (λ u, String.eqb (rui_id u) client) (users r).

(** [publishRoomEvent(request, additional?)] *)
Definition publishRoomEvent (request : RoomRequest)
    (additional : option RoomEventContext) : M World unit :=
  r <- getRoom ;;
  publish (MsgEvent request (getUserInfo r (requestClient request)) additional).

(** The getter [realPlaybackPosition], read at wall-clock time [now]
    (milliseconds); numbers are exact rationals here. *)
Definition realPlaybackPosition (now : Z) (r : Room) : Q :=
  match playbackStart r with
  | Some start => Qplus (playbackPosition r) (Qmake (now - start) 1000)
  | None => playbackPosition r
  end.

(** The getter [voteCounts] *)
Definition voteCounts (r : Room) : gmap string nat := size <$> votes r.

(** [_.orderBy(l, [key], ["desc"])]: larger keys first, equal keys in
    their former order. *)
Fixpoint insertDesc {A} (key : A → nat) (x : A) (l : list A) : list A :=
  match l with
  | [] => [x]
  | y :: l' => if (key x <? key y)%nat then y :: insertDesc key x l' else x :: l
  end.

Definition orderByDesc {A} (key : A → nat) (l : list A) : list A :=
  foldr (insertDesc key) [] l.

(** [_.isEqual] on two videos *)
Definition optQ_eqb (a b : option Q) : bool :=
  match a, b with
  | Some x, Some y => Qeq_bool x y
  | None, None => true
  | _, _ => false
  end.

Definition video_isEqual (a b : Video) : bool :=
  String.eqb (v_service a) (v_service b) && String.eqb (v_id a) (v_id b)
  && optQ_eqb (v_length a) (v_length b).

Fixpoint videos_isEqual (l1 l2 : list Video) : bool :=
  match l1, l2 with
  | [], _ => true
  | a :: l1', b :: l2' => video_isEqual a b && videos_isEqual l1' l2'
  | _ :: _, [] => false
  end.

(** The number of votes the sort of [update] gives a video. *)
Definition voteKey (r : Room) (v : Video) : nat :=
  match votes r !! (v_service v +:+ v_id v) with
  | Some s => size s
  | None => 0
  end.

(** [position > video.length]; false when the video has no length. *)
Definition pastEnd (pos : Q) (v : Video) : bool :=
  match v_length v with
  | Some len => negb (Qle_bool pos len)
  | None => false
  end.

(** [update()], the periodic tick, at wall-clock time [now] *)
Definition update (now : Z) : M World unit :=
  r <- getRoom ;;
  when (match currentSource r with
        | None => true
        | Some v => pastEnd (realPlaybackPosition now r) v
        end) dequeueNext ;;
  r <- getRoom ;;
  when (0 <? length (users r))%nat (onRoom (upd_keepAlivePing now)) ;;
  r <- getRoom ;;
  when (bool_decide (queueMode r = Vote))
    (let oldOrder := queue r in
     let newOrder := orderByDesc (voteKey r) (queue r) in
     onRoom (upd_queue newOrder) ;;
     when ((0 <? length newOrder)%nat && negb (videos_isEqual newOrder oldOrder))
       (markDirty F_queue)).

(** [_.pick(this, "name", ..., "owner")] *)
Definition roomState (r : Room) : gmap Field Value :=
  list_to_map
    [ (F_name, VStr (name r)); (F_title, VStr (title r));
      (F_description, VStr (description r));
      (F_isTemporary, VBool (isTemporary r));
      (F_visibility, VVisibility (visibility r));
      (F_queueMode, VQueueMode (queueMode r));
      (F_currentSource, VVideo (currentSource r));
      (F_queue, VVideos (queue r));
      (F_isPlaying, VBool (isPlaying r));
      (F_playbackPosition, VNum (playbackPosition r));
      (F_grants, VGrants (grants r));
      (F_users, VUsers (users r));
      (F_voteCounts, VCounts (voteCounts r));
      (F_owner, VUser (owner r)) ].

(** [_.pick(state, props)] *)
Definition pick (state : gmap Field Value) (props : gset Field) : gmap Field Value :=
  filter (λ kv, kv.1 ∈ props) state.

(** [set(key, value)] on the bus *)
Definition busSet (key : string) (value : gmap Field Value) : M World unit :=
  modify (λ w, {| room := room w; kv := <[key := value]> (kv w);
                  published := published w; checks := checks w |}).

(** [sync()] *)
Definition sync : M World unit :=
  r <- getRoom ;;
  if bool_decide (size (dirty r) = 0%nat) then ret tt
  else
    let state := roomState r in
    let msg := <[F_grants := VMask (getMask (grants r) Owner)]> (pick state (dirty r)) in
    busSet ("room:" +:+ name r) state ;;
    publish (MsgSync msg) ;;
    onRoom (upd_dirty ∅).

(** [onBeforeUnload()] *)
Definition onBeforeUnload : M World unit := publish MsgUnload.

(** [ROOM_UNLOAD_AFTER], in seconds, and the getter [isStale] *)
Definition ROOM_UNLOAD_AFTER : Z := 240.

Definition isStale (now : Z) (r : Room) : bool :=
  (ROOM_UNLOAD_AFTER <? (now - keepAlivePing r) `quot` 1000)%Z.

(** ** Request handlers *)

(** [this.grants.check(role, permission)], with the call recorded *)
Definition check (role : Role) (permission : option string) : M World unit :=
  modify (λ w, {| room := room w; kv := kv w; published := published w;
                  checks := checks w ++ [{| chk_role := role;
                                            chk_permission := permission |}] |}) ;;
  r <- getRoom ;;
  if grantsCheck (grants r) role permission then ret tt
  else throw PermissionDenied.

(** [this.getRole(user)] where [user] comes from [getUser] and may be
    [undefined]: reading [user.user] then throws. *)
Definition getRoleOf (user : option RoomUser) : M World Role :=
  match user with
  | Some u => r <- getRoom ;; ret (getRole r u)
  | None => throw TypeError
  end.

(** The map [permissions] of [processRequest] *)
Definition permissions (t : RoomRequestType) : option string :=
  match t with
  | TPlaybackRequest => Some "playback.play-pause"
  | TSkipRequest => Some "playback.skip"
  | TSeekRequest => Some "playback.seek"
  | TAddRequest => Some "manage-queue.add"
  | TRemoveRequest => Some "manage-queue.remove"
  | TOrderRequest => Some "manage-queue.order"
  | TVoteRequest => Some "manage-queue.vote"
  | TChatRequest => Some "chat"
  | _ => None
  end.

(** [play()] and [pause()], at wall-clock time [now] *)
Definition play (now : Z) : M World unit :=
  r <- getRoom ;;
  if isPlaying r then ret tt
  else set_isPlaying true ;; onRoom (upd_playbackStart (Some now)).

Definition pause (now : Z) : M World unit :=
  r <- getRoom ;;
  if negb (isPlaying r) then ret tt
  else
    set_isPlaying false ;;
    r <- getRoom ;;
    set_playbackPosition (realPlaybackPosition now r) ;;
    onRoom (upd_playbackStart None).

(** [playback(request)] *)
Definition playback (now : Z) (client : ClientId) (state : bool) : M World unit :=
  (if state then play now else pause now) ;;
  publishRoomEvent (PlaybackRequest client state) None.

(** [skip(request)] *)
Definition skip (now : Z) (client : ClientId) : M World unit :=
  r <- getRoom ;;
  let current := currentSource r in
  let prevPosition := realPlaybackPosition now r in
  dequeueNext ;;
  publishRoomEvent (SkipRequest client)
    (Some {| ctx_video := current; ctx_videos := None;
             ctx_prevPosition := Some prevPosition; ctx_queueIdx := None |}).

(** [seek(request)] *)
Definition seek (client : ClientId) (value : option Q) : M World unit :=
  match value with
  | None => ret tt
  | Some v =>
      r <- getRoom ;;
      let prev := playbackPosition r in
      set_playbackPosition v ;;
      publishRoomEvent (SeekRequest client value)
        (Some {| ctx_video := None; ctx_videos := None;
                 ctx_prevPosition := Some prev; ctx_queueIdx := None |})
  end.

(** [_.findIndex]; [None] is the source's [-1]. *)
Fixpoint findIndex {A} (p : A → bool) (l : list A) : option nat :=
  match l with
  | [] => None
  | x :: l' => if p x then Some 0%nat else S <$> findIndex p l'
  end.

(** [item.service === service && item.id === id] *)
Definition sameVideo (service id : string) (item : Video) : bool :=
  String.eqb (v_service item) service && String.eqb (v_id item) id.

(** The two tests [addToQueue] makes of one video *)
Definition collides (r : Room) (service id : string) : bool :=
  match currentSource r with
  | Some c => sameVideo service id c
  | None => false
  end
  || bool_decide (is_Some (findIndex (sameVideo service id) (queue r))).

(** [addToQueue(request)].  With a [url] the source writes the resolved
    id into [request.video], and that request is the one it publishes.
    The loop over [videos] with [splice(i--, 1)] removes every colliding
    video and keeps the others in order. *)
Definition addToQueue (client : ClientId) (url : option string)
    (video : option VideoId) (videos : option (list VideoId)) : M World unit :=
  video <- (if truthyStr url then
              match getServiceAdapterForURL (default "" url) with
              | Some vid => ret (Some vid)
              | None => throw UpstreamFailure
              end
            else ret video) ;;
  let request := AddRequest client url video videos in
  r <- getRoom ;;
  match video, videos with
  | Some vid, _ =>
      if match currentSource r with
         | Some c => sameVideo (vi_service vid) (vi_id vid) c
         | None => false
         end
      then throw VideoAlreadyQueued
      else
        match findIndex (sameVideo (vi_service vid) (vi_id vid)) (queue r) with
        | Some _ => throw VideoAlreadyQueued
        | None =>
            match getVideoInfo (vi_service vid) (vi_id vid) with
            | None => throw UpstreamFailure
            | Some v =>
                onRoom (upd_queue (queue r ++ [v])) ;;
                publishRoomEvent request
                  (Some {| ctx_video := Some v; ctx_videos := None;
                           ctx_prevPosition := None; ctx_queueIdx := None |}) ;;
                markDirty F_queue
            end
        end
  | None, Some vids =>
      match getManyVideoInfo vids with
      | None => throw UpstreamFailure
      | Some fetched =>
          let kept :=
            List.filter (λ v, negb (collides r (v_service v) (v_id v))) fetched in
          if (length kept =? 0)%nat then throw VideoAlreadyQueued
          else
            onRoom (upd_queue (queue r ++ kept)) ;;
            publishRoomEvent request
              (Some {| ctx_video := None; ctx_videos := Some kept;
                       ctx_prevPosition := None; ctx_queueIdx := None |}) ;;
            markDirty F_queue
      end
  | None, None => ret tt
  end.

(** [removeFromQueue(request)].  Without a [video] the callback of
    [findIndex] throws as soon as it is called, that is, when the queue
    has an item. *)
Definition removeFromQueue (client : ClientId) (video : option VideoId) : M World unit :=
  r <- getRoom ;;
  match video with
  | None =>
      match queue r with
      | [] => throw VideoNotFound
      | _ :: _ => throw TypeError
      end
  | Some vid =>
      match findIndex (sameVideo (vi_service vid) (vi_id vid)) (queue r) with
      | None => throw VideoNotFound
      | Some matchIdx =>
          let removed := queue r !! matchIdx in
          onRoom (upd_queue (delete matchIdx (queue r))) ;;
          markDirty F_queue ;;
          publishRoomEvent (RemoveRequest client video)
            (Some {| ctx_video := removed; ctx_videos := None;
                     ctx_prevPosition := None;
                     ctx_queueIdx := Some (Z.of_nat matchIdx) |})
      end
  end.

(** Where [Array.prototype.splice] starts, for an array of [len] items. *)
Definition spliceStart (len : nat) (start : Z) : nat :=
  if (start <? 0)%Z then Z.to_nat (Z.max (Z.of_nat len + start) 0)
  else Z.to_nat (Z.min start (Z.of_nat len)).

(** How many items [splice(0, count)] removes; no count is [0]. *)
Definition spliceCount (len : nat) (count : option Z) : nat :=
  Z.to_nat (Z.min (Z.max (default 0%Z count) 0) (Z.of_nat len)).

(** [reorderQueue(request)].  When [fromIdx] is past the end nothing is
    removed and the source inserts [undefined]. *)
Definition reorderQueue (client : ClientId) (fromIdx toIdx : Z) : M World unit :=
  r <- getRoom ;;
  let i := spliceStart (length (queue r)) fromIdx in
  match queue r !! i with
  | None => stuck UndefinedValue
  | Some video =>
      let rest := delete i (queue r) in
      let j := spliceStart (length rest) toIdx in
      onRoom (upd_queue (take j rest ++ video :: drop j rest)) ;;
      markDirty F_queue
  end.

(** Run a method of a [RoomUser] inside a room method. *)
Definition liftUser {A} (c : M RoomUser A) (u : RoomUser) : M World (A * RoomUser) :=
  match c u with
  | (Ok a, u') => ret (a, u')
  | (Throw e, _) => throw e
  | (Stuck why, _) => stuck why
  end.

(** [joinRoom(request)] *)
Definition joinRoom (client : ClientId) (info : ClientInfo) : M World unit :=
  res <- liftUser (updateInfo info) (newRoomUser (ci_id info)) ;;
  onRoom (λ r, upd_realusers (realusers r ++ [res.2]) r) ;;
  markDirty F_users ;;
  publishRoomEvent (JoinRequest client info) None.

(** [leaveRoom(request)] *)
Definition leaveRoom (client : ClientId) : M World unit :=
  r <- getRoom ;;
  match findIndex (λ u, String.eqb (ru_id u) client) (realusers r) with
  | Some i => onRoom (upd_realusers (delete i (realusers r))) ;; markDirty F_users
  | None => ret tt
  end ;;
  publishRoomEvent (LeaveRequest client) None.

(** [updateUser(request)].  The source does not await [updateInfo]; the
    promise is taken as settled at once, and a rejection is lost. *)
Definition updateUser (client : ClientId) (info : ClientInfo) : M World unit :=
  r <- getRoom ;;
  let hit (u : RoomUser) := String.eqb (ru_id u) (ci_id info) in
  onRoom (upd_realusers
            ((λ u, if hit u then (updateInfo info u).2 else u) <$> realusers r)) ;;
  when (existsb hit (realusers r)) (markDirty F_users).

(** [chat(request)] *)
Definition chat (client : ClientId) (text : string) : M World unit :=
  r <- getRoom ;;
  publish (MsgChat (getUserInfo r client) text).

(** The items a string yields when iterated: its characters. *)
Fixpoint stringChars (s : string) : list string :=
  match s with
  | EmptyString => []
  | String a s' => String a EmptyString :: stringChars s'
  end.

(** [vote(request)].  [new Set(request.client)] iterates the client id. *)
Definition vote (client : ClientId) (video : VideoId) (add : bool) : M World unit :=
  let key := vi_service video +:+ vi_id video in
  r <- getRoom ;;
  match votes r !! key with
  | Some voters =>
      onRoom (upd_votes
                (<[key := if add then voters ∪ {[client]} else voters ∖ {[client]}]>
                   (votes r)))
  | None =>
      when add
        (onRoom (upd_votes (<[key := list_to_set (stringChars client)]> (votes r))))
  end ;;
  markDirty F_voteCounts.

(** [set.delete(user_id)] on each of the three role sets; [has(undefined)]
    is false, so a target without [user_id] leaves them alone. *)
Definition dropFromRoles (uid : option Z) (ur : UserRoles) : UserRoles :=
  match uid with
  | Some n =>
      rolesAlter (λ s, s ∖ {[n]}) TrustedUser
        (rolesAlter (λ s, s ∖ {[n]}) Moderator
           (rolesAlter (λ s, s ∖ {[n]}) Administrator ur))
  | None => ur
  end.

(** [promoteUser(request)].  The assignment [this.userRoles[i] = ...]
    sets a property of the [Map] object, not an entry, and no method reads
    it. *)
Definition promoteUser (client targetClientId : ClientId) (role : Role) : M World unit :=
  r <- getRoom ;;
  let user := getUser r client in
  let targetUser := getUser r targetClientId in
  let perm :=
    match role with
    | Administrator => Some "manage-users.promote-admin"
    | Moderator => Some "manage-users.promote-moderator"
    | TrustedUser => Some "manage-users.promote-trusted-user"
    | _ => None
    end in
  userRole <- getRoleOf user ;;
  check userRole perm ;;
  targetCurrentRole <- getRoleOf targetUser ;;
  when (roleRank role <? roleRank targetCurrentRole)%Z
    (match targetCurrentRole with
     | Administrator => check role (Some "manage-users.demote-admin")
     | Moderator => check role (Some "manage-users.demote-moderator")
     | TrustedUser => check role (Some "manage-users.demote-trusted-user")
     | _ => throw ImpossiblePromotion
     end) ;;
  if bool_decide (targetCurrentRole = UnregisteredUser) then throw ImpossiblePromotion
  else
    let uid := targetUser ≫= ru_user_id in
    onRoom (λ r, upd_userRoles (dropFromRoles uid (userRoles r)) r) ;;
    (if (roleRank TrustedUser <=? roleRank role)%Z then
       match rolesGet (userRoles r) role, uid with
       | None, _ => throw TypeError
       | Some _, None => stuck UndefinedValue
       | Some _, Some n =>
           onRoom (λ r, upd_userRoles (rolesAlter (λ s, s ∪ {[n]}) role (userRoles r)) r)
       end
     else ret tt) ;;
    markDirty F_users.

(** [undo(request)], given the [processRequest] it calls back into. *)
Definition undo (processRequest : RoomRequest → M World unit)
    (client : ClientId) (evRequest : RoomRequest)
    (evAdditional : RoomEventContext) : M World unit :=
  match evRequest with
  | SeekRequest _ _ =>
      processRequest (SeekRequest client (ctx_prevPosition evAdditional))
  | SkipRequest _ =>
      r <- getRoom ;;
      match currentSource r with
      | Some current => onRoom (upd_queue (current :: queue r)) ;; markDirty F_queue
      | None => ret tt
      end ;;
      set_currentSource (ctx_video evAdditional) ;;
      match ctx_prevPosition evAdditional with
      | Some p => set_playbackPosition p
      | None => stuck UndefinedValue
      end
  | AddRequest _ _ video _ =>
      r <- getRoom ;;
      if (0 <? length (queue r))%nat then processRequest (RemoveRequest client video)
      else set_currentSource None
  | RemoveRequest _ video =>
      r <- getRoom ;;
      let k := spliceCount (length (queue r)) (ctx_queueIdx evAdditional) in
      match video with
      | Some vid =>
          onRoom (upd_queue (take k (queue r) ++ videoOfId vid :: drop k (queue r))) ;;
          markDirty F_queue
      | None => stuck UndefinedValue
      end
  | _ => ret tt
  end.

(** The table [handlers] of [processRequest] and the call of the handler
    it names, given the handler of [UndoRequest].  [now] is the wall-clock
    time of the call. *)
Definition handle
    (undoHandler : ClientId → RoomRequest → RoomEventContext → M World unit)
    (now : Z) (request : RoomRequest) : M World unit :=
  match request with
  | JoinRequest c info => joinRoom c info
  | LeaveRequest c => leaveRoom c
  | PlaybackRequest c state => playback now c state
  | SkipRequest c => skip now c
  | SeekRequest c value => seek c value
  | AddRequest c url video videos => addToQueue c url video videos
  | RemoveRequest c video => removeFromQueue c video
  | OrderRequest c fromIdx toIdx => reorderQueue c fromIdx toIdx
  | VoteRequest c video add => vote c video add
  | PromoteRequest c target role => promoteUser c target role
  | UpdateUser c info => updateUser c info
  | ChatRequest c text => chat c text
  | UndoRequest c evRequest evAdditional => undoHandler c evRequest evAdditional
  end.

(** The body of [processRequest(request)] *)
Definition processRequestWith
    (undoHandler : ClientId → RoomRequest → RoomEventContext → M World unit)
    (now : Z) (request : RoomRequest) : M World unit :=
  r <- getRoom ;;
  let user := getUser r (requestClient request) in
  match permissions (requestType request) with
  | Some permission =>
      role <- getRoleOf user ;;
      check role (Some permission)
  | None => ret tt
  end ;;
  handle undoHandler now request.

(** [processRequest] with at most [depth] nested calls through [undo]. *)
Fixpoint processRequestN (depth : nat) (now : Z) : RoomRequest → M World unit :=
  match depth with
  | O => processRequestWith (λ _ _ _, stuck Depth) now
  | S d => processRequestWith (undo (processRequestN d now)) now
  end.

(** [processRequest(request)]: [undo] calls back with a [SeekRequest] or
    a [RemoveRequest] only, so one nested call is all there is
    (see [processRequestN_enough]). *)
Definition processRequest : Z → RoomRequest → M World unit := processRequestN 1.

(** ** Construction and steps *)

Record RoomOptions := {
  opt_name : option string;
  opt_title : option string;
  opt_description : option string;
  opt_visibility : option Visibility;
  opt_queueMode : option QueueMode;
  opt_isTemporary : option bool;
  opt_owner : option User;
}.

Definition dirtyIf {A} (o : option A) (f : Field) : gset Field :=
  match o with Some _ => {[f]} | None => ∅ end.

(** [new Room(options)] at wall-clock time [now].  [Object.assign] goes
    through the setters, which mark their field dirty. *)
Definition newRoom (now : Z) (options : RoomOptions) : Room :=
  {| name := default "" (opt_name options);
     title := default "" (opt_title options);
     description := default "" (opt_description options);
     visibility := default Public (opt_visibility options);
     queueMode := default Manual (opt_queueMode options);
     isTemporary := default false (opt_isTemporary options);
     currentSource := None; queue := [];
     isPlaying := false; playbackPosition := 0%Q;
     grants := newGrants; realusers := [];
     userRoles := {| trustedUsers := ∅; moderators := ∅; administrators := ∅ |};
     owner := opt_owner options;
     dirty := dirtyIf (opt_name options) F_name
              ∪ dirtyIf (opt_title options) F_title
              ∪ dirtyIf (opt_description options) F_description
              ∪ dirtyIf (opt_visibility options) F_visibility
              ∪ dirtyIf (opt_queueMode options) F_queueMode;
     playbackStart := None; keepAlivePing := now; votes := ∅ |}.

Definition newWorld (now : Z) (options : RoomOptions) : World :=
  {| room := newRoom now options; kv := ∅; published := []; checks := [] |}.

(** What happens to a room from outside: a request, the periodic
    [update], or the timer of [throttledSync] firing. *)
Inductive Step :=
  | DoRequest (now : Z) (request : RoomRequest)
  | DoUpdate (now : Z)
  | DoSync.

Definition runStep (s : Step) : M World unit :=
  match s with
  | DoRequest now request => processRequest now request
  | DoUpdate now => update now
  | DoSync => sync
  end.

(** The state after a step; an exception goes to the caller and the
    state stays as the handler left it. *)
Definition afterStep (w : World) (s : Step) : World := (runStep s w).2.

Definition afterSteps (w : World) (steps : list Step) : World :=
  foldl afterStep w steps.

End Engine.

(** ** The vocabulary of the properties *)

Section Vocabulary.
Context {C : Collaborators}.

(** A video with this (service, id) is the current source or in the
    queue. *)
Definition Queued (r : Room) (vid : VideoId) : Prop :=
  (∃ c, currentSource r = Some c
        ∧ v_service c = vi_service vid ∧ v_id c = vi_id vid)
  ∨ (∃ q, q ∈ queue r ∧ v_service q = vi_service vid ∧ v_id q = vi_id vid).

(** The permission map as the spec lists it. *)
Definition permissionTable : list (RoomRequestType * string) :=
  [ (TPlaybackRequest, "playback.play-pause"); (TSkipRequest, "playback.skip");
    (TSeekRequest, "playback.seek"); (TAddRequest, "manage-queue.add");
    (TRemoveRequest, "manage-queue.remove"); (TOrderRequest, "manage-queue.order");
    (TVoteRequest, "manage-queue.vote"); (TChatRequest, "chat") ].

(** The request types without an entry in the permission map. *)
Definition unguardedTypes : list RoomRequestType :=
  [ TJoinRequest; TLeaveRequest; TUpdateUser; TPromoteRequest; TUndoRequest ].

(** The world after [grants.check(role, permission)] has been called. *)
Definition checked (role : Role) (permission : string) (w : World) : World :=
  {| room := room w; kv := kv w; published := published w;
     checks := checks w ++ [{| chk_role := role;
                               chk_permission := Some permission |}] |}.

(** What identifies a video: the pair (service, id). *)
Definition videoKey (v : Video) : string * string := (v_service v, v_id v).

(** The current source, when there is one, followed by the queue. *)
Definition sources (r : Room) : list Video :=
  option_list (currentSource r) ++ queue r.

(** Their keys, in that order. *)
Definition sourceKeys (r : Room) : list (string * string) :=
  videoKey <$> sources r.

(** No (service, id) occurs twice across the queue and the current
    source. *)
Definition NoDuplicates (r : Room) : Prop := NoDup (sourceKeys r).

(** The outcome is one of those the development does not follow. *)
Definition isStuck {A} (o : Outcome A) : bool :=
  match o with Stuck _ => true | _ => false end.

(** What a request must bring for the invariant: a batch add fetches
    videos that differ from each other, and the undo of a skip or of a
    remove carries a video that is neither in the queue nor current. *)
Definition freshPayload (r : Room) (request : RoomRequest) : Prop :=
  match request with
  | AddRequest _ url None (Some vids) =>
      truthyStr url = false →
      ∀ fetched, getManyVideoInfo vids = Some fetched →
                 NoDup (videoKey <$> fetched)
  | UndoRequest _ (SkipRequest _) ctx =>
      ∀ v, ctx_video ctx = Some v → videoKey v ∉ sourceKeys r
  | UndoRequest _ (RemoveRequest _ (Some vid)) _ =>
      (vi_service vid, vi_id vid) ∉ sourceKeys r
  | _ => True
  end.

(** A step the invariant is stated for: it does not get stuck, and a
    request brings a fresh payload. *)
Definition Admissible (w : World) (s : Step) : Prop :=
  isStuck (runStep s w).1 = false
  ∧ match s with
    | DoRequest _ request => freshPayload (room w) request
    | _ => True
    end.

(** Every step of the run is admissible in the world it starts from. *)
Fixpoint admissibleRun (w : World) (steps : list Step) : Prop :=
  match steps with
  | [] => True
  | s :: rest => Admissible w s ∧ admissibleRun (afterStep w s) rest
  end.

(** The extractor answers with the video it was asked for. *)
Definition extractorFaithful : Prop :=
  ∀ service id v, getVideoInfo service id = Some v →
                  v_service v = service ∧ v_id v = id.

(** [Keeps I c]: the computation [c] keeps the property [I] of the world,
    whatever its outcome. *)
Definition Keeps {A} (I : World → Prop) (c : M World A) : Prop :=
  ∀ w, I w → I (c w).2.

(** The property "the sources are [s]". *)
Definition sourcesAre (s : list Video) (w : World) : Prop := sources (room w) = s.

(** [NoDuplicates], of the room of a world. *)
Definition Inv (w : World) : Prop := NoDuplicates (room w).

(** [NeverDepth c]: the computation [c] does not run into the nesting
    bound. *)
Definition NeverDepth {A} (c : M World A) : Prop :=
  ∀ w, (c w).1 ≠ Stuck Depth.

(** [isPlaying] is true exactly when [playbackStart] is set. *)
Definition ClockInvariant (r : Room) : Prop :=
  isPlaying r = true ↔ playbackStart r ≠ None.

End Vocabulary.

(** ** A concrete set of collaborators

    Used to run the engine on examples.  The grants follow the spec's
    description of [Grants]: a bit mask per role and one bit per
    permission name. *)
Module Demo.

Definition permissionBit (permission : string) : option Z :=
  if String.eqb permission "playback.play-pause" then Some 0%Z
  else if String.eqb permission "playback.skip" then Some 1%Z
  else if String.eqb permission "playback.seek" then Some 2%Z
  else if String.eqb permission "manage-queue.add" then Some 3%Z
  else if String.eqb permission "manage-queue.remove" then Some 4%Z
  else if String.eqb permission "manage-queue.order" then Some 5%Z
  else if String.eqb permission "manage-queue.vote" then Some 6%Z
  else if String.eqb permission "chat" then Some 7%Z
  else None.

Definition demoCheck (g : Role → Z) (r : Role) (permission : option string) : bool :=
  match permission ≫= permissionBit with
  | Some bit => Z.testbit (g r) bit
  | None => false
  end.

(** Everybody may do everything but remove from the queue and seek, which
    take a moderator at least. *)
Definition demoGrants (r : Role) : Z :=
  if (roleRank r <? roleRank Moderator)%Z then 235 else 255.

Definition demoVideo (service id : string) : Video :=
  {| v_service := service; v_id := id; v_length := Some (Qmake 100 1) |}.

#[global] Instance demoCollaborators : Collaborators := {|
  Grants := Role → Z;
  grantsCheck := demoCheck;
  getMask := λ g r, g r;
  newGrants := demoGrants;
  usermanager_getUser := λ n, Some {| u_id := n; u_username := "registered" |};
  getServiceAdapterForURL := λ url, Some {| vi_service := "direct"; vi_id := url |};
  getVideoInfo := λ service id, Some (demoVideo service id);
  getManyVideoInfo := λ l, Some ((λ v, demoVideo (vi_service v) (vi_id v)) <$> l);
|}.

Definition optionsR : RoomOptions :=
  {| opt_name := Some "r"; opt_title := None; opt_description := None;
     opt_visibility := None; opt_queueMode := None; opt_isTemporary := None;
     opt_owner := None |}.

Definition guest (id : ClientId) : ClientInfo :=
  {| ci_id := id; ci_user_id := None; ci_username := Some "guest";
     ci_status := None |}.

Definition vidA : VideoId := {| vi_service := "youtube"; vi_id := "A" |}.
Definition vidB : VideoId := {| vi_service := "youtube"; vi_id := "B" |}.
Definition vidC : VideoId := {| vi_service := "youtube"; vi_id := "C" |}.

Definition addVideo (now : Z) (client : ClientId) (vid : VideoId) : Step :=
  DoRequest now (AddRequest client None (Some vid) None).

(** A new room called "r" that the guest with client id "1" has joined. *)
Definition lobby : World :=
  afterSteps (newWorld 0 optionsR) [DoRequest 0 (JoinRequest "1" (guest "1"))].

(** The guest has added A, B and C; a tick has made A the current source,
    so the queue is B, C. *)
Definition threeVideos : World :=
  afterSteps lobby [addVideo 1 "1" vidA; addVideo 2 "1" vidB;
                    addVideo 3 "1" vidC; DoUpdate 5].

(** The same room, playing since time 10. *)
Definition threeVideosPlaying : World :=
  afterSteps threeVideos [DoRequest 10 (PlaybackRequest "1" true)].

(** A room whose only video, A, is playing since time 10; the queue is
    empty. *)
Definition lastVideoPlaying : World :=
  afterSteps lobby [addVideo 1 "1" vidA; DoUpdate 5;
                    DoRequest 10 (PlaybackRequest "1" true)].

(** The guest as the room knows them. *)
Definition guestUser : RoomUser :=
  {| ru_id := "1"; ru_user_id := None; unregisteredUsername := "guest";
     ru_user := None; playerStatus := StatusNone |}.

End Demo.

(** ** More vocabulary: what a step leaves alone *)

Global Instance RoomRequestType_eq_dec : EqDecision RoomRequestType.
Proof. solve_decision. Defined.

Section Footprints.
Context {C : Collaborators}.

(** The second world has the room and the bus of the first; only the
    record of grant checks may have grown. *)
Definition Untouched (w w' : World) : Prop :=
  room w' = room w ∧ kv w' = kv w ∧ published w' = published w.




End Footprints.

Section Stability.
Context {C : Collaborators}.

(** The part [π] of the room is [x]. *)
Definition projIs {X} (π : Room → X) (x : X) (w : World) : Prop :=
  π (room w) = x.

(** [π] does not depend on the queue, the current source, the position,
    the participants, the dirty set, the keep-alive time or the votes. *)
Definition StableBasic {X} (π : Room → X) : Prop :=
  (∀ x r, π (upd_queue x r) = π r)
  ∧ (∀ x r, π (upd_currentSource x r) = π r)
  ∧ (∀ x r, π (upd_playbackPosition x r) = π r)
  ∧ (∀ x r, π (upd_realusers x r) = π r)
  ∧ (∀ x r, π (upd_dirty x r) = π r)
  ∧ (∀ x r, π (upd_keepAlivePing x r) = π r)
  ∧ (∀ x r, π (upd_votes x r) = π r).

(** [π] does not depend on [isPlaying] or [playbackStart]. *)
Definition StableClock {X} (π : Room → X) : Prop :=
  (∀ x r, π (upd_isPlaying x r) = π r)
  ∧ (∀ x r, π (upd_playbackStart x r) = π r).

(** [π] does not depend on the role sets. *)
Definition StableRoles {X} (π : Room → X) : Prop :=
  ∀ x r, π (upd_userRoles x r) = π r.

(** What no request is meant to touch: the identity of the room, its
    settings, its grants and its owner. *)
Definition settings (r : Room) :=
  (name r, title r, description r, visibility r, queueMode r,
   isTemporary r, grants r, owner r).

(** The playback clock. *)
Definition clock (r : Room) : bool * option Z := (isPlaying r, playbackStart r).

(** No user id is in two role sets. *)
Definition RolesDisjoint (ur : UserRoles) : Prop :=
  trustedUsers ur ## moderators ur
  ∧ trustedUsers ur ## administrators ur
  ∧ moderators ur ## administrators ur.

End Stability.

(** ** More examples *)

Module Demo2.
Import Demo.

(** A room called "o" that belongs to the registered user 9. *)
Definition optionsO : RoomOptions :=
  {| opt_name := Some "o"; opt_title := None; opt_description := None;
     opt_visibility := None; opt_queueMode := None; opt_isTemporary := None;
     opt_owner := Some {| u_id := 9; u_username := "registered" |} |}.

Definition ownerInfo : ClientInfo :=
  {| ci_id := "9"; ci_user_id := Some 9%Z; ci_username := None;
     ci_status := None |}.

(** The owner as the room knows them. *)
Definition ownerUser : RoomUser :=
  {| ru_id := "9"; ru_user_id := Some 9%Z; unregisteredUsername := "";
     ru_user := Some {| u_id := 9; u_username := "registered" |};
     playerStatus := StatusNone |}.

(** The guest "1" and the owner "9" have joined; A is the current source
    and the queue is B, C. *)
Definition ownedRoom : World :=
  afterSteps (newWorld 0 optionsO)
    [ DoRequest 0 (JoinRequest "1" (guest "1"));
      DoRequest 0 (JoinRequest "9" ownerInfo);
      addVideo 1 "1" vidA; addVideo 2 "1" vidB; addVideo 3 "1" vidC;
      DoUpdate 5 ].

Definition vidD : VideoId := {| vi_service := "youtube"; vi_id := "D" |}.

End Demo2.

Module Demo3.
Import Demo.

(** A room called "v" whose queue is ordered by votes. *)
Definition optionsV : RoomOptions :=
  {| opt_name := Some "v"; opt_title := None; opt_description := None;
     opt_visibility := None; opt_queueMode := Some Vote; opt_isTemporary := None;
     opt_owner := None |}.

(** A is the current source and the queue is B, C; the guest "1" has
    voted for C. *)
Definition voteRoom : World :=
  afterSteps (newWorld 0 optionsV)
    [ DoRequest 0 (JoinRequest "1" (guest "1"));
      addVideo 1 "1" vidA; DoUpdate 2; addVideo 3 "1" vidB; addVideo 4 "1" vidC;
      DoRequest 6 (VoteRequest "1" vidC true) ].

(** Collaborators whose grants allow everything. *)
Definition permissive : Collaborators := {|
  Grants := unit;
  grantsCheck := λ _ _ _, true;
  getMask := λ _ _, 255%Z;
  newGrants := tt;
  usermanager_getUser := λ n, Some {| u_id := n; u_username := "registered" |};
  getServiceAdapterForURL := λ url, Some {| vi_service := "direct"; vi_id := url |};
  getVideoInfo := λ service id, Some (demoVideo service id);
  getManyVideoInfo := λ l, Some ((λ v, demoVideo (vi_service v) (vi_id v)) <$> l);
|}.

Definition memberInfo : ClientInfo :=
  {| ci_id := "7"; ci_user_id := Some 7%Z; ci_username := None;
     ci_status := None |}.

(** The registered user 7 as the room knows them. *)
Definition memberUser : RoomUser :=
  {| ru_id := "7"; ru_user_id := Some 7%Z; unregisteredUsername := "";
     ru_user := Some {| u_id := 7; u_username := "registered" |};
     playerStatus := StatusNone |}.

(** The owner "9" and the registered user "7" in the owner's room, under
    the permissive grants. *)
Definition staffRoom : @World permissive :=
  @afterSteps permissive (@newWorld permissive 0 Demo2.optionsO)
    [ DoRequest 0 (JoinRequest "9" Demo2.ownerInfo);
      DoRequest 0 (JoinRequest "7" memberInfo) ].

End Demo3.

(** * Properties *)

(** Unfold the monad and the small methods every handler is made of. *)
Ltac run :=
  unfold bind, ret, throw, stuck, modify, when, onRoom, getRoom,
    markDirty, set_currentSource, set_isPlaying, set_playbackPosition,
    publishRoomEvent, publish, busSet, check, getRoleOf in *;
  simpl in *.

Section Lookup.
Context {C : Collaborators}.

Lemma findIndex_None {A} (p : A → bool) (l : list A) :
  findIndex p l = None ↔ List.find p l = None.
Proof.
  induction l as [|x l IH]; simpl; [done|].
  destruct (p x); [done|].
  rewrite <- IH. by destruct (findIndex p l).
Qed.

Lemma findIndex_Some {A} (p : A → bool) (l : list A) (i : nat) :
  findIndex p l = Some i → ∃ x, l !! i = Some x ∧ p x = true.
Proof.
  revert i; induction l as [|x l IH]; intros i; simpl; [done|].
  destruct (p x) eqn:Hp.
  - intros [= <-]. by exists x.
  - destruct (findIndex p l) as [j|]; simpl; [|done].
    intros [= <-]. by apply IH.
Qed.

Lemma findIndex_None_all {A} (p : A → bool) (l : list A) :
  findIndex p l = None ↔ ∀ x, x ∈ l → p x = false.
Proof.
  induction l as [|x l IH]; simpl.
  - split; [|done]. intros _ y Hy. by apply elem_of_nil in Hy.
  - destruct (p x) eqn:Hp.
    + split; [done|]. intros Hall. specialize (Hall x (list_elem_of_here _ _)).
      congruence.
    + destruct (findIndex p l) as [j|]; simpl.
      * split; [done|]. intros Hall.
        assert (∀ y, y ∈ l → p y = false) as Hl
          by (intros y Hy; apply Hall; by apply list_elem_of_further).
        apply IH in Hl. done.
      * split; [|done]. intros _ y Hy.
        apply elem_of_cons in Hy as [->|Hy]; [done|].
        by apply IH.
Qed.

(** A client that is not a participant has no user info either. *)
Lemma getUserInfo_None (r : Room) (client : ClientId) :
  getUser r client = None → getUserInfo r client = None.
Proof.
  unfold getUser, getUserInfo, users.
  induction (realusers r) as [|u l IH]; simpl; [done|].
  destruct (String.eqb (ru_id u) client); [done|]. exact IH.
Qed.

End Lookup.

Section RoomUserProperties.
Context {C : Collaborators}.

(** C8, as amended.  For a [ClientInfo] whose [user_id] is there (and, as
    JavaScript tests it, not zero) and whose user the user store returns,
    [updateInfo] records the id and caches the fetched user; the id of the
    room user stays, the status is overwritten when the info carries one,
    and [unregisteredUsername] is left as it was, not cleared. *)
Theorem updateInfo_registered (u : RoomUser) (info : ClientInfo) (usr : User) :
  truthyNum (ci_user_id info) = true →
  usermanager_getUser (default 0%Z (ci_user_id info)) = Some usr →
  ∃ u',
    updateInfo info u = (Ok tt, u')
    ∧ ru_user_id u' = ci_user_id info
    ∧ ru_user u' = Some usr
    ∧ unregisteredUsername u' = unregisteredUsername u
    ∧ ru_id u' = ru_id u
    ∧ playerStatus u' = default (playerStatus u) (ci_status info).
Proof.
  intros Hid Hget. unfold updateInfo. rewrite Hid. run. rewrite Hget.
  destruct (ci_status info); simpl; eexists; (split; [reflexivity|done]).
Qed.

End RoomUserProperties.

(** C8, the counterexample: a guest called "guest" logs in as user 7; the
    name is still stored afterwards, so it is not empty. *)
Lemma updateInfo_keeps_unregisteredUsername :
  let u := set_unregisteredUsername "guest" (newRoomUser "1") in
  let info := {| ci_id := "1"; ci_user_id := Some 7%Z; ci_username := None;
                 ci_status := None |} in
  (updateInfo info u).1 = Ok tt
  ∧ ru_user_id (updateInfo info u).2 = Some 7%Z
  ∧ unregisteredUsername (updateInfo info u).2 = "guest"
  ∧ unregisteredUsername (updateInfo info u).2 ≠ "".
Proof. by vm_compute. Qed.

Lemma updateInfo_registered_witness :
  ∃ u',
    updateInfo
      {| ci_id := "1"; ci_user_id := Some 7%Z; ci_username := None;
         ci_status := Some StatusReady |}
      (set_unregisteredUsername "guest" (newRoomUser "1")) = (Ok tt, u')
    ∧ ru_user_id u' = Some 7%Z
    ∧ ru_user u' = Some {| u_id := 7; u_username := "registered" |}
    ∧ unregisteredUsername u' = "guest"
    ∧ ru_id u' = "1"
    ∧ playerStatus u' = StatusReady.
Proof.
  apply (updateInfo_registered (C := Demo.demoCollaborators)
           (set_unregisteredUsername "guest" (newRoomUser "1"))
           {| ci_id := "1"; ci_user_id := Some 7%Z; ci_username := None;
              ci_status := Some StatusReady |}
           {| u_id := 7; u_username := "registered" |}); reflexivity.
Defined.

Section HandlerProperties.
Context {C : Collaborators}.

Lemma sameVideo_true (service id : string) (v : Video) :
  sameVideo service id v = true ↔ v_service v = service ∧ v_id v = id.
Proof.
  unfold sameVideo. rewrite andb_true_iff, !String.eqb_eq. done.
Qed.

Lemma sameVideo_false (service id : string) (v : Video) :
  sameVideo service id v = false ↔ ¬ (v_service v = service ∧ v_id v = id).
Proof.
  rewrite <- sameVideo_true. by destruct (sameVideo service id v).
Qed.

(** [addToQueue] takes its first exit on the current source and its second
    on the queue exactly when the video is [Queued]. *)
Lemma addToQueue_tests (r : Room) (vid : VideoId) :
  Queued r vid ↔
    match currentSource r with
    | Some c => sameVideo (vi_service vid) (vi_id vid) c
    | None => false
    end = true
    ∨ is_Some (findIndex (sameVideo (vi_service vid) (vi_id vid)) (queue r)).
Proof.
  unfold Queued. split.
  - intros [(c & -> & Hc)|(q & Hq & Hk)].
    + left. by apply sameVideo_true.
    + right. destruct (findIndex _ (queue r)) eqn:Hf; [done|].
      rewrite findIndex_None_all in Hf. apply Hf in Hq.
      apply sameVideo_false in Hq. done.
  - intros [Hc|[i Hi]].
    + left. destruct (currentSource r) as [c|]; [|done].
      exists c. split; [done|]. by apply sameVideo_true.
    + right. apply findIndex_Some in Hi as (q & Hq & Hp).
      exists q. split; [by eapply list_elem_of_lookup_2|].
      by apply sameVideo_true.
Qed.

(** C4.  A single-video [AddRequest]: a [video] is given, or a [url] that
    the extractor resolves to one; [vid] is that video's (service, id).
    When [vid] is the current source or in the queue, [addToQueue] throws
    [VideoAlreadyQueued] and the room, the bus and everything else stay as
    they were; otherwise, with [v] the video the extractor returns, [v] is
    appended to the end of the queue, [queue] is marked dirty, the event is
    published with [{video: v}], and nothing else changes. *)
Theorem addToQueue_single (w : World) (client : ClientId) (url : option string)
    (video : option VideoId) (videos : option (list VideoId)) (vid : VideoId) :
  (if truthyStr url then getServiceAdapterForURL (default "" url) else video)
    = Some vid →
  (Queued (room w) vid →
     addToQueue client url video videos w = (Throw VideoAlreadyQueued, w))
  ∧ (¬ Queued (room w) vid →
     ∀ v, getVideoInfo (vi_service vid) (vi_id vid) = Some v →
       addToQueue client url video videos w =
         (Ok tt,
          {| room := upd_dirty ({[F_queue]} ∪ dirty (room w))
                       (upd_queue (queue (room w) ++ [v]) (room w));
             kv := kv w;
             published := published w ++
               [("room:" +:+ name (room w),
                 MsgEvent (AddRequest client url (Some vid) videos)
                   (getUserInfo (room w) client)
                   (Some {| ctx_video := Some v; ctx_videos := None;
                            ctx_prevPosition := None; ctx_queueIdx := None |}))];
             checks := checks w |})).
Proof.
  intros Hvid. unfold addToQueue. unfold bind at 1.
  destruct (truthyStr url); rewrite Hvid; unfold ret at 1;
    (run; split;
     [ intros Hq; apply addToQueue_tests in Hq as [Hc|[i Hi]];
       [ by rewrite Hc
       | rewrite Hi;
         by destruct (match currentSource (room w) with
                      | Some c => _ | None => _ end) ]
     | intros Hq v Hv; rewrite addToQueue_tests in Hq;
       destruct (match currentSource (room w) with
                 | Some c => _ | None => _ end) eqn:Hc; [naive_solver|];
       destruct (findIndex _ (queue (room w))) eqn:Hf; [naive_solver|];
       by rewrite Hv ]).
Qed.

(** C10.  A [LeaveRequest] of a client that is no participant: neither the
    participants nor any other part of the room change (so [users] is not
    marked dirty), nothing is written to the bus store and no grant is
    checked, and still one event is published for the request, with no
    user attached.  The same holds when the request comes in through
    [processRequest]. *)
Theorem leaveRoom_absent_client (w : World) (now : Z) (client : ClientId) :
  getUser (room w) client = None →
  let w' := {| room := room w; kv := kv w;
               published := published w ++
                 [("room:" +:+ name (room w),
                   MsgEvent (LeaveRequest client) None None)];
               checks := checks w |} in
  leaveRoom client w = (Ok tt, w')
  ∧ processRequest now (LeaveRequest client) w = (Ok tt, w').
Proof.
  intros Hnone.
  assert (findIndex (λ u, String.eqb (ru_id u) client) (realusers (room w)) = None)
    as Hidx by by apply findIndex_None.
  assert (leaveRoom client w =
          (Ok tt, {| room := room w; kv := kv w;
                     published := published w ++
                       [("room:" +:+ name (room w),
                         MsgEvent (LeaveRequest client) None None)];
                     checks := checks w |})) as Hleave.
  { unfold leaveRoom. run. rewrite Hidx. run.
    by rewrite (getUserInfo_None _ _ Hnone). }
  split; [exact Hleave|].
  unfold processRequest, processRequestN, processRequestWith, handle.
  simpl. unfold bind at 1, getRoom at 1, bind at 1, ret at 1.
  exact Hleave.
Qed.

End HandlerProperties.

Section SkipUndo.
Context {C : Collaborators}.

(** C5, as amended.  In a room with a current source, a skip at time [now]
    publishes the event [{video: old current source, prevPosition: the
    effective position at the time of the skip}], and an [UndoRequest] that
    carries this event, from any client, puts the current source and the
    queue back as they were before the skip and sets [playbackPosition] to
    that effective position, which is the former [playbackPosition] when
    [playbackStart] was none. *)
Theorem skip_then_undo (w : World) (now now' : Z) (c c' : ClientId) (cur : Video) :
  currentSource (room w) = Some cur →
  let ctx := {| ctx_video := Some cur; ctx_videos := None;
                ctx_prevPosition := Some (realPlaybackPosition now (room w));
                ctx_queueIdx := None |} in
  let w1 := (skip now c w).2 in
  let w2 := (processRequest now' (UndoRequest c' (SkipRequest c) ctx) w1).2 in
  (skip now c w).1 = Ok tt
  ∧ last (published w1) =
      Some ("room:" +:+ name (room w),
            MsgEvent (SkipRequest c) (getUserInfo (room w) c) (Some ctx))
  ∧ (processRequest now' (UndoRequest c' (SkipRequest c) ctx) w1).1 = Ok tt
  ∧ currentSource (room w2) = Some cur
  ∧ queue (room w2) = queue (room w)
  ∧ playbackPosition (room w2) = realPlaybackPosition now (room w)
  ∧ (playbackStart (room w) = None →
     playbackPosition (room w2) = playbackPosition (room w)).
Proof.
  intros Hcur.
  assert (playbackStart (room w) = None →
          realPlaybackPosition now (room w) = playbackPosition (room w)) as Hreal.
  { unfold realPlaybackPosition. by intros ->. }
  unfold processRequest, processRequestN, processRequestWith, handle, undo,
    skip, dequeueNext.
  run. rewrite Hcur.
  destruct (queue (room w)) as [|next rest] eqn:Hq; simpl.
  - destruct (isPlaying (room w)); simpl; rewrite last_snoc;
      repeat split; auto.
  - rewrite last_snoc. repeat split; auto.
Qed.

End SkipUndo.

(** C5, the counterexample: A is playing since time 10 at position 0 and is
    skipped at time 2010, two seconds in.  The undo of that skip brings
    back A and the queue B, C, but the stored position is 2 seconds, not
    the 0 seconds stored before the skip. *)
Lemma skip_then_undo_moves_position :
  let w := Demo.threeVideosPlaying in
  let w1 := (processRequest 2010 (SkipRequest "1") w).2 in
  ∃ user ctx,
    last (published w1) = Some ("room:r", MsgEvent (SkipRequest "1") user (Some ctx))
    ∧ ctx_video ctx = currentSource (room w)
    ∧ ctx_prevPosition ctx = Some (realPlaybackPosition 2010 (room w))
    ∧ let w2 := (processRequest 3000 (UndoRequest "1" (SkipRequest "1") ctx) w1).2 in
      currentSource (room w2) = currentSource (room w)
      ∧ queue (room w2) = queue (room w)
      ∧ ¬ (playbackPosition (room w2) == playbackPosition (room w))%Q
      ∧ playbackPosition (room w2) ≠ playbackPosition (room w).
Proof.
  eexists _, _. split; [by vm_compute|]. by vm_compute.
Qed.

Lemma skip_then_undo_witness :
  let w := Demo.threeVideos in
  let cur := Demo.demoVideo "youtube" "A" in
  let ctx := {| ctx_video := Some cur; ctx_videos := None;
                ctx_prevPosition := Some (realPlaybackPosition 2010 (room w));
                ctx_queueIdx := None |} in
  let w1 := (skip 2010 "1" w).2 in
  let w2 := (processRequest 3000 (UndoRequest "1" (SkipRequest "1") ctx) w1).2 in
  (skip 2010 "1" w).1 = Ok tt
  ∧ last (published w1) =
      Some ("room:" +:+ name (room w),
            MsgEvent (SkipRequest "1") (getUserInfo (room w) "1") (Some ctx))
  ∧ (processRequest 3000 (UndoRequest "1" (SkipRequest "1") ctx) w1).1 = Ok tt
  ∧ currentSource (room w2) = Some cur
  ∧ queue (room w2) = queue (room w)
  ∧ playbackPosition (room w2) = realPlaybackPosition 2010 (room w)
  ∧ (playbackStart (room w) = None →
     playbackPosition (room w2) = playbackPosition (room w)).
Proof.
  apply (skip_then_undo Demo.threeVideos 2010 3000 "1" "1"
           (Demo.demoVideo "youtube" "A")).
  by vm_compute.
Defined.

(** C2, evaluated where it fails: A is playing and the queue is empty.
    [dequeueNext] (reached through a skip, or through the tick once A is
    over) sets [isPlaying] to false and leaves [playbackStart] set. *)
Lemma dequeueNext_keeps_playbackStart :
  let w := Demo.lastVideoPlaying in
  (isPlaying (room w) = true ∧ playbackStart (room w) = Some 10%Z
   ∧ queue (room w) = [] ∧ is_Some (currentSource (room w)))
  ∧ (let w' := (dequeueNext w).2 in
     isPlaying (room w') = false ∧ playbackStart (room w') = Some 10%Z)
  ∧ (let w' := (processRequest 2010 (SkipRequest "1") w).2 in
     isPlaying (room w') = false ∧ playbackStart (room w') = Some 10%Z)
  ∧ (let w' := (update 200000 w).2 in
     isPlaying (room w') = false ∧ playbackStart (room w') = Some 10%Z).
Proof. vm_compute. repeat apply conj; eauto. Qed.

(** C7, evaluated where it fails: nobody has voted for A yet and the client
    with id "10" votes for it.  The new entry holds "1" and "0", the
    characters of the id, and not the id. *)
Lemma vote_first_vote_splits_client_id :
  let w := Demo.threeVideos in
  let w' := (vote "10" Demo.vidA true w).2 in
  votes (room w) !! "youtubeA" = None
  ∧ votes (room w') !! "youtubeA" = Some {["1"; "0"]}
  ∧ votes (room w') !! "youtubeA" ≠ Some {["10"]}
  ∧ voteCounts (room w') !! "youtubeA" = Some 2%nat
  ∧ F_voteCounts ∈ dirty (room w').
Proof. intros w w'. repeat apply conj; by vm_compute. Qed.

Section Permissions.
Context {C : Collaborators}.

Lemma permissions_table (t : RoomRequestType) :
  match permissions t with
  | Some permission => (t, permission) ∈ permissionTable
  | None => t ∈ unguardedTypes
  end.
Proof. destruct t; simpl; unfold permissionTable, unguardedTypes; set_solver. Qed.

(** What [processRequest] does before the handler, for a participant. *)
Lemma processRequestWith_guarded undoHandler (w : World) (now : Z)
    (request : RoomRequest) (u : RoomUser) (permission : string) :
  permissions (requestType request) = Some permission →
  getUser (room w) (requestClient request) = Some u →
  processRequestWith undoHandler now request w =
    if grantsCheck (grants (room w)) (getRole (room w) u) (Some permission)
    then handle undoHandler now request (checked (getRole (room w) u) permission w)
    else (Throw PermissionDenied, checked (getRole (room w) u) permission w).
Proof.
  intros Hperm Huser. unfold processRequestWith.
  unfold bind at 1, getRoom at 1. simpl. rewrite Hperm, Huser.
  unfold bind at 1. unfold bind at 1. unfold getRoleOf.
  unfold bind at 1, getRoom at 1. unfold ret at 1. unfold check.
  unfold bind at 1, modify at 1. unfold bind at 1, getRoom at 1. simpl.
  unfold checked.
  by destruct (grantsCheck _ _ _).
Qed.

Lemma processRequestWith_unguarded undoHandler (w : World) (now : Z)
    (request : RoomRequest) :
  permissions (requestType request) = None →
  processRequestWith undoHandler now request w = handle undoHandler now request w.
Proof.
  intros Hperm. unfold processRequestWith.
  unfold bind at 1, getRoom at 1. simpl. rewrite Hperm.
  unfold bind at 1. by unfold ret at 1.
Qed.

(** C6, as amended.  [u] is the participant the request's client resolves
    to, which a request that needs a permission must have.  For the eight
    request types of the permission map, with the spec's permission names,
    [processRequest] calls [grants.check] once with the role of [u] before
    the handler; when the check fails the result is [PermissionDenied] and
    no handler has run: room and bus are as before.  For [JoinRequest],
    [LeaveRequest], [UpdateUser], [PromoteRequest] and [UndoRequest] the
    handler runs at once, with no check before it. *)
Theorem processRequest_permission (w : World) (now : Z) (request : RoomRequest)
    (u : RoomUser) :
  (is_Some (permissions (requestType request)) →
   getUser (room w) (requestClient request) = Some u) →
  match permissions (requestType request) with
  | Some permission =>
      (requestType request, permission) ∈ permissionTable
      ∧ (let w1 := checked (getRole (room w) u) permission w in
         if grantsCheck (grants (room w)) (getRole (room w) u) (Some permission)
         then processRequest now request w =
                handle (undo (processRequestN 0 now)) now request w1
         else processRequest now request w = (Throw PermissionDenied, w1))
  | None =>
      requestType request ∈ unguardedTypes
      ∧ processRequest now request w =
          handle (undo (processRequestN 0 now)) now request w
  end.
Proof.
  intros Huser.
  pose proof (permissions_table (requestType request)) as Htable.
  destruct (permissions (requestType request)) as [permission|] eqn:Hperm.
  - split; [exact Htable|]. simpl.
    unfold processRequest. simpl.
    rewrite (processRequestWith_guarded _ w now request u permission Hperm);
      [|by apply Huser].
    by destruct (grantsCheck _ _ _).
  - split; [exact Htable|].
    unfold processRequest. simpl.
    by apply processRequestWith_unguarded.
Qed.

(** C9, as amended.  For a participant [u] acting as client [c]: the undo
    of a seek event is a [SeekRequest] of [c] and fails with
    [PermissionDenied] when the role of [u] lacks [playback.seek]; the undo
    of an add event while the queue has an item is a [RemoveRequest] of [c]
    and fails with [PermissionDenied] when the role lacks
    [manage-queue.remove]; in both cases room and bus stay as they were.
    The undo of an add event while the queue is empty checks nothing and
    clears the current source. *)
Theorem undo_permission (w : World) (now : Z) (c evClient : ClientId)
    (u : RoomUser) (ctx : RoomEventContext) :
  getUser (room w) c = Some u →
  let role := getRole (room w) u in
  (∀ value,
     grantsCheck (grants (room w)) role (Some "playback.seek") = false →
     processRequest now (UndoRequest c (SeekRequest evClient value) ctx) w =
       (Throw PermissionDenied, checked role "playback.seek" w))
  ∧ (∀ url video videos,
       queue (room w) ≠ [] →
       grantsCheck (grants (room w)) role (Some "manage-queue.remove") = false →
       processRequest now (UndoRequest c (AddRequest evClient url video videos) ctx) w =
         (Throw PermissionDenied, checked role "manage-queue.remove" w))
  ∧ (∀ url video videos,
       queue (room w) = [] →
       processRequest now (UndoRequest c (AddRequest evClient url video videos) ctx) w =
         (Ok tt,
          {| room := upd_dirty ({[F_currentSource]} ∪ dirty (room w))
                       (upd_currentSource None (room w));
             kv := kv w; published := published w; checks := checks w |})).
Proof.
  intros Huser role.
  unfold processRequest. simpl.
  split; [|split].
  - intros value Hdenied.
    rewrite processRequestWith_unguarded by done. simpl.
    rewrite (processRequestWith_guarded _ w now _ u "playback.seek") by done.
    fold role. by rewrite Hdenied.
  - intros url video videos Hqueue Hdenied.
    rewrite processRequestWith_unguarded by done. simpl.
    unfold undo. unfold bind at 1, getRoom at 1.
    destruct (queue (room w)) as [|q rest] eqn:Hq; [done|]. simpl.
    rewrite (processRequestWith_guarded _ w now _ u "manage-queue.remove") by done.
    fold role. by rewrite Hdenied.
  - intros url video videos Hqueue.
    rewrite processRequestWith_unguarded by done. simpl.
    unfold undo. run. by rewrite Hqueue.
Qed.

End Permissions.

(** C6, the counterexample: the client "2" has not joined the room and
    sends a [PlaybackRequest], a type of the permission map.  Reading the
    role of the missing user throws; [grants.check] is never called. *)
Lemma processRequest_absent_client_unchecked :
  let w := Demo.threeVideos in
  let request := PlaybackRequest "2" true in
  getUser (room w) (requestClient request) = None
  ∧ permissions (requestType request) = Some "playback.play-pause"
  ∧ processRequest 20 request w = (Throw TypeError, w)
  ∧ checks (processRequest 20 request w).2 = checks w.
Proof. intros w request. repeat apply conj; by vm_compute. Qed.

(** C9, the counterexample: the guest may not remove from the queue, the
    queue is empty and A is playing.  The guest's undo of an add event is
    not turned into a [RemoveRequest]: no permission is checked, the undo
    succeeds and the current source is gone. *)
Lemma undo_add_on_empty_queue_unchecked :
  let w := Demo.lastVideoPlaying in
  let request := UndoRequest "1" (AddRequest "1" None (Some Demo.vidA) None) noContext in
  (∃ u, getUser (room w) "1" = Some u
        ∧ grantsCheck (grants (room w)) (getRole (room w) u)
            (Some "manage-queue.remove") = false)
  ∧ queue (room w) = []
  ∧ is_Some (currentSource (room w))
  ∧ (processRequest 20 request w).1 = Ok tt
  ∧ currentSource (room (processRequest 20 request w).2) = None
  ∧ checks (processRequest 20 request w).2 = checks w.
Proof.
  intros w request. repeat apply conj; try by vm_compute.
  - eexists. split; by vm_compute.
  - vm_compute. eauto.
Qed.

Section Sync.
Context {C : Collaborators}.

(** With nothing dirty [sync] does nothing at all. *)
Lemma sync_clean (w : World) :
  dirty (room w) = ∅ → sync w = (Ok tt, w).
Proof.
  intros Hclean. unfold sync. run. rewrite Hclean. simpl.
  by destruct w.
Qed.

(** With something dirty [sync] writes the whole state under the key
    [room:{name}], publishes one sync message on the channel [room:{name}]
    and empties the dirty set. *)
Lemma sync_dirty (w : World) :
  dirty (room w) ≠ ∅ →
  sync w =
    (Ok tt,
     {| room := upd_dirty ∅ (room w);
        kv := <["room:" +:+ name (room w) := roomState (room w)]> (kv w);
        published := published w ++
          [("room:" +:+ name (room w),
            MsgSync (<[F_grants := VMask (getMask (grants (room w)) Owner)]>
                       (pick (roomState (room w)) (dirty (room w)))))];
        checks := checks w |}).
Proof.
  intros Hdirty. unfold sync. run.
  rewrite bool_decide_eq_false_2; [done|].
  intros Hsize. by apply size_empty_inv, leibniz_equiv in Hsize.
Qed.

(** The fields of the sync message: [grants] always, as the mask of
    [Owner]; any other field exactly when it is dirty, with its value in
    the state. *)
Lemma sync_message_fields (r : Room) (f : Field) :
  <[F_grants := VMask (getMask (grants r) Owner)]> (pick (roomState r) (dirty r)) !! f =
    if decide (f = F_grants) then Some (VMask (getMask (grants r) Owner))
    else if decide (f ∈ dirty r) then roomState r !! f
    else None.
Proof.
  destruct (decide (f = F_grants)) as [->|Hf].
  - by rewrite lookup_insert_eq.
  - rewrite lookup_insert_ne by done. unfold pick.
    destruct (decide (f ∈ dirty r)) as [Hin|Hout].
    + destruct (roomState r !! f) as [v|] eqn:Hv.
      * by apply map_lookup_filter_Some.
      * apply map_lookup_filter_None. by left.
    + apply map_lookup_filter_None. right. intros v _. done.
Qed.

End Sync.

(** C3, evaluated where it fails: the room "r" has dirty fields.  [sync]
    writes the state under the key "room:r"; the key "room-sync:r", which
    the claim names and from which the client manager reads the state,
    stays unset.  The rest is as claimed: one sync message on the channel
    "room:r" with the dirty fields and the grants mask of [Owner], and an
    empty dirty set afterwards. *)
Lemma sync_writes_key_room_name :
  let w := Demo.threeVideos in
  let w' := (sync w).2 in
  name (room w) = "r"
  ∧ dirty (room w) ≠ ∅
  ∧ kv w' !! "room:r" = Some (roomState (room w))
  ∧ kv w' !! "room-sync:r" = None
  ∧ dirty (room w') = ∅
  ∧ ∃ msg, published w' = published w ++ [("room:r", MsgSync msg)]
           ∧ msg !! F_grants = Some (VMask 255)
           ∧ dom msg = dirty (room w) ∪ {[F_grants]}.
Proof.
  intros w w'. repeat apply conj; try by vm_compute.
  eexists. repeat apply conj; by vm_compute.
Qed.

Section QueueInvariant.
Context {C : Collaborators}.

Lemma insertDesc_Permutation {A} (key : A → nat) (x : A) (l : list A) :
  insertDesc key x l ≡ₚ x :: l.
Proof.
  induction l as [|y l IH]; simpl; [done|].
  destruct (key x <? key y)%nat; [|done].
  rewrite IH. apply Permutation_swap.
Qed.

Lemma orderByDesc_Permutation {A} (key : A → nat) (l : list A) :
  orderByDesc key l ≡ₚ l.
Proof.
  unfold orderByDesc. induction l as [|x l IH]; simpl; [done|].
  by rewrite insertDesc_Permutation, IH.
Qed.

Lemma filter_sublist {A} (p : A → bool) (l : list A) :
  List.filter p l `sublist_of` l.
Proof.
  induction l as [|x l IH]; simpl; [constructor|].
  destruct (p x); by constructor.
Qed.

Lemma NoDup_keys_sublist (l1 l2 : list Video) :
  l1 `sublist_of` l2 → NoDup (videoKey <$> l2) → NoDup (videoKey <$> l1).
Proof.
  intros Hsub Hnd. eapply sublist_NoDup; [exact Hnd|by apply fmap_sublist].
Qed.

Lemma NoDup_keys_Permutation (l1 l2 : list Video) :
  l1 ≡ₚ l2 → NoDup (videoKey <$> l2) → NoDup (videoKey <$> l1).
Proof. by intros ->. Qed.

Lemma sameVideo_nowhere (service id : string) (l : list Video) :
  (∀ v, v ∈ l → sameVideo service id v = false) ↔ (service, id) ∉ videoKey <$> l.
Proof.
  split.
  - intros Hall Hin. apply list_elem_of_fmap in Hin as (v & Heq & Hv).
    specialize (Hall v Hv). apply sameVideo_false in Hall.
    unfold videoKey in Heq. injection Heq as -> ->. by apply Hall.
  - intros Hout v Hv. apply sameVideo_false. intros [<- <-].
    apply Hout. by apply (list_elem_of_fmap_2 videoKey) in Hv.
Qed.

(** A video passes the two tests of [addToQueue] exactly when its key is
    not among the keys of the sources. *)
Lemma collides_false (r : Room) (service id : string) :
  collides r service id = false ↔ (service, id) ∉ sourceKeys r.
Proof.
  unfold collides, sourceKeys, sources.
  rewrite orb_false_iff, bool_decide_eq_false, fmap_app, not_elem_of_app.
  rewrite <- eq_None_not_Some, findIndex_None_all, sameVideo_nowhere.
  apply and_iff_compat_r.
  rewrite <- sameVideo_nowhere.
  destruct (currentSource r) as [c|]; simpl.
  - split.
    + intros Hc v Hv. apply list_elem_of_singleton in Hv as ->. done.
    + intros Hall. apply Hall. by apply list_elem_of_singleton.
  - split; [|done]. intros _ v Hv. by apply elem_of_nil in Hv.
Qed.

Lemma Keeps_ret {A} I (a : A) : Keeps I (ret a).
Proof. by intros w. Qed.
Lemma Keeps_throw {A} I e : Keeps I (throw (A := A) e).
Proof. by intros w. Qed.
Lemma Keeps_stuck {A} I why : Keeps I (stuck (A := A) why).
Proof. by intros w. Qed.
Lemma Keeps_getRoom I : Keeps I getRoom.
Proof. by intros w. Qed.

Lemma Keeps_bind {A B} I (c : M World A) (k : A → M World B) :
  Keeps I c → (∀ a, Keeps I (k a)) → Keeps I (bind c k).
Proof.
  intros Hc Hk w Hw. unfold bind. specialize (Hc w Hw).
  destruct (c w) as [[a|e|why] w']; simpl in *; [|done..].
  by apply Hk.
Qed.

Lemma Keeps_when I (b : bool) (c : M World unit) :
  Keeps I c → Keeps I (when b c).
Proof. intros Hc. destruct b; [done|]. apply Keeps_ret. Qed.

Lemma Keeps_onRoom s (f : Room → Room) :
  (∀ r, sources (f r) = sources r) → Keeps (sourcesAre s) (onRoom f).
Proof. intros Hf w Hw. unfold sourcesAre in *. simpl. by rewrite Hf. Qed.

Lemma Keeps_markDirty s f : Keeps (sourcesAre s) (markDirty f).
Proof. by apply Keeps_onRoom. Qed.
Lemma Keeps_publish s msg : Keeps (sourcesAre s) (publish msg).
Proof. by intros w. Qed.
Lemma Keeps_busSet s key value : Keeps (sourcesAre s) (busSet key value).
Proof. by intros w. Qed.
Lemma Keeps_publishRoomEvent s request additional :
  Keeps (sourcesAre s) (publishRoomEvent request additional).
Proof. by intros w. Qed.
Lemma Keeps_getRoleOf s user : Keeps (sourcesAre s) (getRoleOf user).
Proof. destruct user; by intros w. Qed.
Lemma Keeps_check s role permission : Keeps (sourcesAre s) (check role permission).
Proof. intros w Hw. unfold check. run. by case_match. Qed.
Lemma Keeps_set_isPlaying s b : Keeps (sourcesAre s) (set_isPlaying b).
Proof. by intros w. Qed.
Lemma Keeps_set_playbackPosition s q : Keeps (sourcesAre s) (set_playbackPosition q).
Proof. by intros w. Qed.
Lemma Keeps_liftUser {A} s (c : M RoomUser A) u : Keeps (sourcesAre s) (liftUser c u).
Proof. intros w Hw. unfold liftUser. by repeat case_match. Qed.

(** Handlers that leave the queue and the current source alone. *)
Ltac frame :=
  repeat first
    [ apply Keeps_ret | apply Keeps_throw | apply Keeps_stuck
    | apply Keeps_getRoom | apply Keeps_markDirty | apply Keeps_publish
    | apply Keeps_busSet | apply Keeps_publishRoomEvent | apply Keeps_getRoleOf
    | apply Keeps_check | apply Keeps_set_isPlaying
    | apply Keeps_set_playbackPosition | apply Keeps_liftUser
    | apply Keeps_when
    | apply Keeps_onRoom; done
    | apply Keeps_bind; [|intros ?]
    | case_match ].

Lemma joinRoom_frame s c info : Keeps (sourcesAre s) (joinRoom c info).
Proof. unfold joinRoom. frame. Qed.

Lemma leaveRoom_frame s c : Keeps (sourcesAre s) (leaveRoom c).
Proof. unfold leaveRoom. frame. Qed.

Lemma playback_frame s now c state : Keeps (sourcesAre s) (playback now c state).
Proof. unfold playback, play, pause. frame. Qed.

Lemma seek_frame s c value : Keeps (sourcesAre s) (seek c value).
Proof. unfold seek. frame. Qed.

Lemma vote_frame s c video add : Keeps (sourcesAre s) (vote c video add).
Proof. unfold vote. frame. Qed.

Lemma promoteUser_frame s c target role : Keeps (sourcesAre s) (promoteUser c target role).
Proof. unfold promoteUser. frame. Qed.

Lemma updateUser_frame s c info : Keeps (sourcesAre s) (updateUser c info).
Proof. unfold updateUser. frame. Qed.

Lemma chat_frame s c text : Keeps (sourcesAre s) (chat c text).
Proof. unfold chat. frame. Qed.

Lemma sync_frame s : Keeps (sourcesAre s) sync.
Proof. unfold sync. frame. Qed.

(** ** The handlers that change the queue or the current source *)

Lemma Keeps_Inv_frame {A} (c : M World A) :
  (∀ s, Keeps (sourcesAre s) c) → Keeps Inv c.
Proof.
  intros Hc w Hw. unfold Inv, NoDuplicates, sourceKeys in *.
  by rewrite (Hc (sources (room w)) w eq_refl).
Qed.

Ltac show_inv := unfold Inv, NoDuplicates, sourceKeys, sources; simpl.

Lemma Inv_elim (w : World) : Inv w → NoDup (videoKey <$> sources (room w)).
Proof. done. Qed.

Lemma dequeueNext_Inv : Keeps Inv dequeueNext.
Proof.
  intros w Hinv. pose proof (Inv_elim w Hinv) as Hw. unfold sources in Hw.
  unfold dequeueNext. run.
  destruct (queue (room w)) as [|v rest] eqn:Hq; simpl.
  - destruct (currentSource (room w)) as [c|] eqn:Hc; simpl.
    + destruct (isPlaying (room w)); show_inv; rewrite Hq; constructor.
    + done.
  - show_inv.
    apply (NoDup_keys_sublist (v :: rest) _ (sublist_inserts_l _ _ _ (reflexivity _)) Hw).
Qed.

Lemma skip_Inv now c : Keeps Inv (skip now c).
Proof.
  unfold skip. apply Keeps_bind; [apply Keeps_getRoom|]. intros r.
  apply Keeps_bind; [apply dequeueNext_Inv|]. intros _.
  apply Keeps_Inv_frame. intros s. frame.
Qed.

Lemma removeFromQueue_Inv c video : Keeps Inv (removeFromQueue c video).
Proof.
  intros w Hinv. pose proof (Inv_elim w Hinv) as Hw. unfold sources in Hw.
  unfold removeFromQueue. run.
  destruct video as [vid|]; [|by destruct (queue (room w))].
  destruct (findIndex _ (queue (room w))) as [i|]; simpl; [|done].
  show_inv.
  eapply NoDup_keys_sublist; [|exact Hw].
  apply sublist_app; [done|]. apply sublist_delete.
Qed.

Lemma reorderQueue_Inv c fromIdx toIdx : Keeps Inv (reorderQueue c fromIdx toIdx).
Proof.
  intros w Hinv. pose proof (Inv_elim w Hinv) as Hw. unfold sources in Hw.
  unfold reorderQueue. run.
  destruct (queue (room w) !! _) as [video|] eqn:Hi; simpl; [|done].
  show_inv.
  eapply NoDup_keys_Permutation; [|exact Hw].
  apply Permutation_app_head.
  rewrite <- Permutation_middle, take_drop.
  symmetry. by apply delete_Permutation.
Qed.

Lemma update_Inv now : Keeps Inv (update now).
Proof.
  unfold update. apply Keeps_bind; [apply Keeps_getRoom|]. intros r.
  apply Keeps_bind; [apply Keeps_when, dequeueNext_Inv|]. intros _.
  apply Keeps_bind; [apply Keeps_getRoom|]. intros r1.
  apply Keeps_bind; [apply Keeps_when, Keeps_Inv_frame; intros s; frame|].
  intros _.
  intros w Hinv. pose proof (Inv_elim w Hinv) as Hw. unfold sources in Hw. run.
  destruct (bool_decide (queueMode (room w) = Vote)); simpl; [|done].
  assert (NoDup (videoKey <$> option_list (currentSource (room w)) ++
                   orderByDesc (voteKey (room w)) (queue (room w)))) as Hsorted.
  { eapply NoDup_keys_Permutation; [|exact Hw].
    apply Permutation_app_head, orderByDesc_Permutation. }
  destruct (_ && _); by show_inv.
Qed.

Lemma videoKey_fresh_sources (w : World) (vid : VideoId) :
  (match currentSource (room w) with
   | Some c => sameVideo (vi_service vid) (vi_id vid) c
   | None => false
   end = false) →
  findIndex (sameVideo (vi_service vid) (vi_id vid)) (queue (room w)) = None →
  (vi_service vid, vi_id vid) ∉ sourceKeys (room w).
Proof.
  intros Hc Hq. apply collides_false. unfold collides.
  rewrite Hc, Hq. done.
Qed.

Lemma push_Inv (w : World) (l : list Video) :
  Inv w →
  NoDup (videoKey <$> l) →
  (∀ v, v ∈ l → videoKey v ∉ sourceKeys (room w)) →
  NoDup (videoKey <$> option_list (currentSource (room w)) ++ (queue (room w) ++ l)).
Proof.
  intros Hw Hl Hfresh. rewrite app_assoc, fmap_app.
  apply NoDup_app. split; [exact Hw|]. split; [|exact Hl].
  intros k Hk Hkl. apply list_elem_of_fmap in Hkl as (v & -> & Hv).
  by apply (Hfresh v Hv).
Qed.

(** The path of [addToQueue] for a single video, once the monad is
    unfolded. *)
Ltac single vid Hfaithful :=
  run;
  destruct (match currentSource _ with Some _ => _ | None => _ end) eqn:Hc;
    [done|];
  destruct (findIndex _ _) eqn:Hq; [done|];
  destruct (getVideoInfo _ _) as [v|] eqn:Hv; [|done];
  show_inv; apply Hfaithful in Hv as [Hs Hi];
  apply push_Inv; [done|repeat constructor; set_solver|];
  intros v' Hv'; apply list_elem_of_singleton in Hv' as ->;
  unfold videoKey; rewrite Hs, Hi; by apply videoKey_fresh_sources.

Lemma addToQueue_Inv c url video videos (w : World) :
  extractorFaithful →
  Inv w →
  freshPayload (room w) (AddRequest c url video videos) →
  Inv (addToQueue c url video videos w).2.
Proof.
  intros Hfaithful Hinv Hfresh.
  unfold addToQueue. unfold bind at 1.
  destruct (truthyStr url) eqn:Hurl.
  - destruct (getServiceAdapterForURL _) as [vid|]; [|done].
    unfold ret at 1. single vid Hfaithful.
  - unfold ret at 1. destruct video as [vid|]; [single vid Hfaithful|].
    run. destruct videos as [vids|]; [|done].
    destruct (getManyVideoInfo vids) as [fetched|] eqn:Hfetched; [|done].
    destruct (length _ =? 0)%nat; [done|].
    show_inv. apply push_Inv; [done| |].
    + eapply NoDup_keys_sublist; [apply filter_sublist|]. by eapply Hfresh.
    + intros v Hv. apply list_elem_of_In, filter_In in Hv as [_ Hv].
      apply negb_true_iff in Hv. by apply collides_false.
Qed.

Lemma undo_Inv (process : RoomRequest → M World unit) c ev ctx (w : World) :
  (∀ c value, Keeps Inv (process (SeekRequest c value))) →
  (∀ c video, Keeps Inv (process (RemoveRequest c video))) →
  Inv w →
  freshPayload (room w) (UndoRequest c ev ctx) →
  Inv (undo process c ev ctx w).2.
Proof.
  intros Hseek Hremove Hinv Hfresh.
  pose proof (Inv_elim w Hinv) as Hw. unfold sources in Hw.
  destruct ev; simpl; try done.
  - (* a skip *)
    run.
    assert (NoDup (videoKey <$> option_list (ctx_video ctx) ++
                     option_list (currentSource (room w)) ++ queue (room w)))
      as Hnew.
    { destruct (ctx_video ctx) as [v|] eqn:Hv; [|done]. simpl.
      apply NoDup_cons. split; [|done]. by apply Hfresh. }
    destruct (currentSource (room w)) as [cur|] eqn:Hcur; simpl in *;
      destruct (ctx_prevPosition ctx); by show_inv.
  - (* a seek *)
    by apply Hseek.
  - (* an add *)
    unfold bind at 1, getRoom at 1.
    destruct (0 <? length (queue (room w)))%nat eqn:Hlen; [by apply Hremove|].
    run. show_inv.
    eapply NoDup_keys_sublist; [|exact Hw]. by apply sublist_inserts_l.
  - (* a remove *)
    run. destruct video as [vid|]; [|done]. simpl. show_inv.
    set (k := spliceCount _ _).
    eapply (NoDup_keys_Permutation _
              (videoOfId vid :: option_list (currentSource (room w)) ++ queue (room w))).
    + by rewrite <- !Permutation_middle, take_drop.
    + simpl. apply NoDup_cons. split; [exact Hfresh|exact Hw].
Qed.

(** The permission check of [processRequest] does not touch the room. *)
Lemma processRequestWith_Inv h now request (w : World) :
  Inv w →
  (∀ w1, room w1 = room w → Inv (handle h now request w1).2) →
  Inv (processRequestWith h now request w).2.
Proof.
  intros Hinv Hhandle. unfold processRequestWith.
  unfold bind at 1, getRoom at 1. simpl.
  destruct (permissions (requestType request)) as [permission|].
  - unfold bind at 1. unfold bind at 1. unfold getRoleOf.
    destruct (getUser (room w) (requestClient request)) as [u|]; [|done].
    unfold bind at 1, getRoom at 1, ret at 1, check.
    unfold bind at 1, modify at 1. unfold bind at 1, getRoom at 1. simpl.
    destruct (grantsCheck _ _ _); [|done]. by apply Hhandle.
  - unfold bind at 1, ret at 1. by apply Hhandle.
Qed.

Lemma Inv_same_room (w w1 : World) : room w1 = room w → Inv w → Inv w1.
Proof. unfold Inv. by intros ->. Qed.

(** Every handler but [undo] keeps the invariant. *)
Lemma handle_Inv h now request (w : World) :
  extractorFaithful →
  requestType request ≠ TUndoRequest →
  Inv w →
  freshPayload (room w) request →
  Inv (handle h now request w).2.
Proof.
  intros Hfaithful Htype Hinv Hfresh.
  destruct request; simpl.
  - by apply (Keeps_Inv_frame _ (λ s, joinRoom_frame s _ _)).
  - by apply (Keeps_Inv_frame _ (λ s, leaveRoom_frame s _)).
  - by apply (Keeps_Inv_frame _ (λ s, playback_frame s _ _ _)).
  - by apply skip_Inv.
  - by apply (Keeps_Inv_frame _ (λ s, seek_frame s _ _)).
  - by apply addToQueue_Inv.
  - by apply removeFromQueue_Inv.
  - by apply reorderQueue_Inv.
  - by apply (Keeps_Inv_frame _ (λ s, vote_frame s _ _ _)).
  - by apply (Keeps_Inv_frame _ (λ s, promoteUser_frame s _ _ _)).
  - by apply (Keeps_Inv_frame _ (λ s, updateUser_frame s _ _)).
  - by apply (Keeps_Inv_frame _ (λ s, chat_frame s _ _)).
  - done.
Qed.

Lemma processRequestWith_plain_Inv h now request :
  extractorFaithful →
  requestType request ≠ TUndoRequest →
  (∀ r, freshPayload r request) →
  Keeps Inv (processRequestWith h now request).
Proof.
  intros Hfaithful Htype Hfresh w Hinv.
  apply processRequestWith_Inv; [done|]. intros w1 Hroom.
  apply handle_Inv; [done..| |done]. by eapply Inv_same_room.
Qed.

Lemma processRequest_Inv now request (w : World) :
  extractorFaithful →
  Inv w →
  freshPayload (room w) request →
  Inv (processRequest now request w).2.
Proof.
  intros Hfaithful Hinv Hfresh. unfold processRequest. simpl.
  apply processRequestWith_Inv; [done|]. intros w1 Hroom.
  apply (Inv_same_room _ _ Hroom) in Hinv. rewrite <- Hroom in Hfresh.
  destruct request; try by apply handle_Inv.
  simpl. apply undo_Inv; [| |done..]; intros;
    by apply processRequestWith_plain_Inv.
Qed.

Lemma afterStep_Inv (w : World) (s : Step) :
  extractorFaithful → Inv w → Admissible w s → Inv (afterStep w s).
Proof.
  intros Hfaithful Hinv [_ Hfresh]. unfold afterStep.
  destruct s as [now request|now|]; simpl.
  - by apply processRequest_Inv.
  - by apply update_Inv.
  - by apply (Keeps_Inv_frame _ sync_frame).
Qed.

Lemma afterSteps_Inv (steps : list Step) (w : World) :
  extractorFaithful → Inv w → admissibleRun w steps → Inv (afterSteps w steps).
Proof.
  intros Hfaithful. revert w.
  induction steps as [|s steps IH]; intros w Hinv Hrun; simpl; [done|].
  destruct Hrun as [Hs Hrest].
  apply IH; [|done]. by apply afterStep_Inv.
Qed.

Lemma admissibleRun_take (k : nat) (steps : list Step) (w : World) :
  admissibleRun w steps → admissibleRun w (take k steps).
Proof.
  revert k w. induction steps as [|s steps IH]; intros [|k] w; simpl; try done.
  intros [Hs Hrest]. split; [done|]. by apply IH.
Qed.

Lemma newWorld_Inv now options : Inv (newWorld now options).
Proof. show_inv. constructor. Qed.

(** C1, as amended.  Start from a new room and run any sequence of
    requests, ticks and syncs in which: the extractor answers with the
    video it was asked for; a batch add fetches videos that differ from
    each other; the undo of a skip or remove event carries a video that is
    neither current nor in the queue at that time; and no step makes the
    source store [undefined] in the room (an out-of-range reorder, an undo
    payload with a field missing).  Then after every step no (service, id)
    occurs twice across the queue together with the current source. *)
Theorem queue_has_no_duplicates (now : Z) (options : RoomOptions)
    (steps : list Step) (k : nat) :
  extractorFaithful →
  admissibleRun (newWorld now options) steps →
  NoDuplicates (room (afterSteps (newWorld now options) (take k steps))).
Proof.
  intros Hfaithful Hrun.
  apply (afterSteps_Inv (take k steps) (newWorld now options) Hfaithful).
  - apply newWorld_Inv.
  - by apply admissibleRun_take.
Qed.

End QueueInvariant.

Section Nesting.
Context {C : Collaborators}.

Lemma bind_ext {St A B} (c : M St A) (k1 k2 : A → M St B) (s : St) :
  (∀ a s', k1 a s' = k2 a s') → bind c k1 s = bind c k2 s.
Proof. intros Hk. unfold bind. destruct (c s) as [[a|e|why] s']; by rewrite ?Hk. Qed.

(** Only an [UndoRequest] reaches the handler of [UndoRequest]. *)
Lemma processRequestWith_plain h1 h2 now request (w : World) :
  requestType request ≠ TUndoRequest →
  processRequestWith h1 now request w = processRequestWith h2 now request w.
Proof.
  intros Htype. unfold processRequestWith.
  apply bind_ext. intros r w1. apply bind_ext. intros _ w2.
  by destruct request.
Qed.

(** [undo] calls back with a [SeekRequest] or a [RemoveRequest] only. *)
Lemma undo_ext (p1 p2 : RoomRequest → M World unit) c ev ctx (w : World) :
  (∀ request w', requestType request ≠ TUndoRequest → p1 request w' = p2 request w') →
  undo p1 c ev ctx w = undo p2 c ev ctx w.
Proof.
  intros Hp. destruct ev; simpl; try done.
  - by apply Hp.
  - apply bind_ext. intros r w1.
    destruct (0 <? length (queue r))%nat; [|done]. by apply Hp.
Qed.

(** One nested call is enough: a larger bound changes nothing. *)
Lemma processRequestN_enough (d : nat) now request (w : World) :
  processRequestN (S d) now request w = processRequest now request w.
Proof.
  unfold processRequest. revert request w.
  induction d as [|d IH]; intros request w; [done|].
  rewrite <- IH.
  change (processRequestWith (undo (processRequestN (S d) now)) now request w =
          processRequestWith (undo (processRequestN d now)) now request w).
  unfold processRequestWith.
  apply bind_ext. intros r w1. apply bind_ext. intros _ w2.
  destruct request; try done. simpl.
  apply undo_ext. intros nested w' Htype.
  destruct d as [|d']; simpl; by apply processRequestWith_plain.
Qed.

Lemma NeverDepth_bind {A B} (c : M World A) (k : A → M World B) :
  NeverDepth c → (∀ a, NeverDepth (k a)) → NeverDepth (bind c k).
Proof.
  intros Hc Hk w. unfold bind. specialize (Hc w).
  destruct (c w) as [[a|e|why] w']; simpl in *.
  - apply Hk.
  - done.
  - intros [= ->]. by apply Hc.
Qed.

Lemma NeverDepth_when b (c : M World unit) : NeverDepth c → NeverDepth (when b c).
Proof. intros Hc. by destruct b. Qed.

Lemma NeverDepth_check role permission : NeverDepth (check role permission).
Proof. intros w. unfold check. run. by destruct (grantsCheck _ _ _). Qed.

Lemma NeverDepth_getRoleOf user : NeverDepth (getRoleOf user).
Proof. by destruct user. Qed.

Lemma NeverDepth_liftUser {A} (c : M RoomUser A) u :
  (∀ u, (c u).1 ≠ Stuck Depth) → NeverDepth (liftUser c u).
Proof.
  intros Hc w. unfold liftUser. specialize (Hc u).
  destruct (c u) as [[a|e|why] u']; simpl in *; [done..|]. by intros [= ->].
Qed.

Lemma updateInfo_NeverDepth info (u : RoomUser) : (updateInfo info u).1 ≠ Stuck Depth.
Proof. unfold updateInfo. run. by repeat case_match. Qed.

Ltac never_depth :=
  repeat first
    [ apply NeverDepth_check | apply NeverDepth_getRoleOf
    | apply NeverDepth_liftUser, updateInfo_NeverDepth
    | apply NeverDepth_when
    | apply NeverDepth_bind; [|intros ?]
    | case_match
    | by intros ? ].

Lemma handle_NeverDepth h now request :
  (∀ c ev ctx, NeverDepth (h c ev ctx)) → NeverDepth (handle h now request).
Proof.
  intros Hh. destruct request; simpl; [..|by apply Hh].
  - unfold joinRoom. never_depth.
  - unfold leaveRoom. never_depth.
  - unfold playback, play, pause. never_depth.
  - unfold skip, dequeueNext. never_depth.
  - unfold seek. never_depth.
  - unfold addToQueue. never_depth.
  - unfold removeFromQueue. never_depth.
  - unfold reorderQueue. never_depth.
  - unfold vote. never_depth.
  - unfold promoteUser. never_depth.
  - unfold updateUser. never_depth.
  - unfold chat. never_depth.
Qed.

Lemma processRequestWith_NeverDepth h now request :
  (∀ c ev ctx, NeverDepth (h c ev ctx)) →
  NeverDepth (processRequestWith h now request).
Proof.
  intros Hh. unfold processRequestWith.
  apply NeverDepth_bind; [by intros ?|]. intros r.
  apply NeverDepth_bind; [never_depth|]. intros _.
  by apply handle_NeverDepth.
Qed.

(** [processRequest] never stops at the nesting bound: that needs an
    [UndoRequest] inside the call [undo] makes, and [undo] makes none. *)
Lemma processRequest_NeverDepth now request : NeverDepth (processRequest now request).
Proof.
  unfold processRequest. simpl.
  apply processRequestWith_NeverDepth. intros c ev ctx.
  destruct ev; simpl; try by intros ?.
  - unfold set_currentSource, set_playbackPosition. never_depth.
  - intros w. rewrite (processRequestWith_plain _ (λ _ _ _, ret tt)) by done.
    revert w. apply processRequestWith_NeverDepth. by intros ? ? ? ?.
  - apply NeverDepth_bind; [by intros ?|]. intros r.
    case_match; [|by intros ?].
    intros w. rewrite (processRequestWith_plain _ (λ _ _ _, ret tt)) by done.
    revert w. apply processRequestWith_NeverDepth. by intros ? ? ? ?.
  - never_depth.
Qed.

End Nesting.

Section Support.
Context {C : Collaborators}.

Lemma play_ClockInvariant now (w : World) :
  ClockInvariant (room w) → ClockInvariant (room (play now w).2).
Proof.
  unfold ClockInvariant, play. run. intros Hw.
  destruct (isPlaying (room w)) eqn:Hp; simpl; [by rewrite Hp|done].
Qed.

Lemma pause_ClockInvariant now (w : World) :
  ClockInvariant (room w) → ClockInvariant (room (pause now w).2).
Proof.
  unfold ClockInvariant, pause. run. intros Hw.
  destruct (isPlaying (room w)) eqn:Hp; simpl; [done|by rewrite Hp].
Qed.

Lemma seek_ClockInvariant c value (w : World) :
  ClockInvariant (room w) → ClockInvariant (room (seek c value w).2).
Proof. unfold ClockInvariant, seek. run. intros Hw. by destruct value. Qed.

(** Where [dequeueNext] breaks it: the last video of a playing room. *)
Lemma dequeueNext_last_video (w : World) (cur : Video) :
  queue (room w) = [] →
  currentSource (room w) = Some cur →
  isPlaying (room w) = true →
  isPlaying (room (dequeueNext w).2) = false
  ∧ playbackStart (room (dequeueNext w).2) = playbackStart (room w)
  ∧ currentSource (room (dequeueNext w).2) = None.
Proof. intros Hq Hc Hp. unfold dequeueNext. run. by rewrite Hq, Hc, Hp. Qed.

(** A vote for a video that already has an entry: the client is added to
    the voters, or taken out of them, and [voteCounts] is marked dirty. *)
Lemma vote_existing_entry (w : World) c (video : VideoId) (add : bool)
    (voters : gset string) :
  votes (room w) !! (vi_service video +:+ vi_id video) = Some voters →
  (vote c video add w).1 = Ok tt
  ∧ votes (room (vote c video add w).2) =
      <[vi_service video +:+ vi_id video :=
          if add then voters ∪ {[c]} else voters ∖ {[c]}]> (votes (room w))
  ∧ F_voteCounts ∈ dirty (room (vote c video add w).2).
Proof.
  intros Hentry. unfold vote. run. rewrite Hentry. simpl.
  repeat apply conj; [done..|set_solver].
Qed.

(** A vote for a video without an entry: adding makes an entry out of the
    characters of the client id, removing makes none. *)
Lemma vote_no_entry (w : World) c (video : VideoId) (add : bool) :
  votes (room w) !! (vi_service video +:+ vi_id video) = None →
  (vote c video add w).1 = Ok tt
  ∧ votes (room (vote c video add w).2) =
      (if add
       then <[vi_service video +:+ vi_id video := list_to_set (stringChars c)]>
              (votes (room w))
       else votes (room w))
  ∧ F_voteCounts ∈ dirty (room (vote c video add w).2).
Proof.
  intros Hentry. unfold vote. run. rewrite Hentry.
  destruct add; simpl; (repeat apply conj; [done..|set_solver]).
Qed.

End Support.

Lemma addToQueue_single_witness :
  let w := Demo.threeVideos in
  let vidD := {| vi_service := "youtube"; vi_id := "D" |} in
  addToQueue "1" None (Some Demo.vidB) None w = (Throw VideoAlreadyQueued, w)
  ∧ addToQueue "1" None (Some vidD) None w =
      (Ok tt,
       {| room := upd_dirty ({[F_queue]} ∪ dirty (room w))
                    (upd_queue (queue (room w) ++ [Demo.demoVideo "youtube" "D"])
                       (room w));
          kv := kv w;
          published := published w ++
            [("room:" +:+ name (room w),
              MsgEvent (AddRequest "1" None (Some vidD) None)
                (getUserInfo (room w) "1")
                (Some {| ctx_video := Some (Demo.demoVideo "youtube" "D");
                         ctx_videos := None; ctx_prevPosition := None;
                         ctx_queueIdx := None |}))];
          checks := checks w |}).
Proof.
  intros w vidD. split.
  - apply (addToQueue_single w "1" None (Some Demo.vidB) None Demo.vidB);
      [reflexivity|].
    apply addToQueue_tests. right. vm_compute. eauto.
  - apply (addToQueue_single w "1" None (Some vidD) None vidD);
      [reflexivity| |reflexivity].
    rewrite addToQueue_tests. vm_compute. intros [?|[? ?]]; done.
Defined.

Lemma leaveRoom_absent_client_witness :
  let w := Demo.threeVideos in
  let w' := {| room := room w; kv := kv w;
               published := published w ++
                 [("room:" +:+ name (room w),
                   MsgEvent (LeaveRequest "2") None None)];
               checks := checks w |} in
  leaveRoom "2" w = (Ok tt, w')
  ∧ processRequest 20 (LeaveRequest "2") w = (Ok tt, w').
Proof.
  apply (leaveRoom_absent_client Demo.threeVideos 20 "2"). by vm_compute.
Defined.

Lemma processRequest_permission_witness :
  let w := Demo.threeVideos in
  let request := RemoveRequest "1" (Some Demo.vidB) in
  let u := Demo.guestUser in
  match permissions (requestType request) with
  | Some permission =>
      (requestType request, permission) ∈ permissionTable
      ∧ (let w1 := checked (getRole (room w) u) permission w in
         if grantsCheck (grants (room w)) (getRole (room w) u) (Some permission)
         then processRequest 20 request w =
                handle (undo (processRequestN 0 20)) 20 request w1
         else processRequest 20 request w = (Throw PermissionDenied, w1))
  | None =>
      requestType request ∈ unguardedTypes
      ∧ processRequest 20 request w =
          handle (undo (processRequestN 0 20)) 20 request w
  end.
Proof.
  apply (processRequest_permission Demo.threeVideos 20
           (RemoveRequest "1" (Some Demo.vidB)) Demo.guestUser).
  intros _. by vm_compute.
Defined.

Lemma undo_permission_witness :
  let w := Demo.threeVideos in
  let role := getRole (room w) Demo.guestUser in
  processRequest 20 (UndoRequest "1" (SeekRequest "1" (Some 0%Q)) noContext) w =
    (Throw PermissionDenied, checked role "playback.seek" w)
  ∧ processRequest 20
      (UndoRequest "1" (AddRequest "1" None (Some Demo.vidC) None) noContext) w =
    (Throw PermissionDenied, checked role "manage-queue.remove" w).
Proof.
  intros w role.
  assert (getUser (room w) "1" = Some Demo.guestUser) as Huser by by vm_compute.
  destruct (undo_permission w 20 "1" "1" Demo.guestUser noContext Huser)
    as (Hseek & Hadd & _).
  split.
  - apply Hseek. by vm_compute.
  - apply Hadd; by vm_compute.
Defined.

(** C1, the counterexample: the current source is A and the queue is B, C,
    with no duplicate.  An [UndoRequest] that hands in a remove event for
    B, which is still in the queue, inserts B once more. *)
Lemma undo_remove_duplicates_queue :
  let w := Demo.threeVideos in
  let request :=
    UndoRequest "1" (RemoveRequest "1" (Some Demo.vidB))
      {| ctx_video := Some (Demo.demoVideo "youtube" "B"); ctx_videos := None;
         ctx_prevPosition := None; ctx_queueIdx := Some 0%Z |} in
  let w' := afterSteps w [DoRequest 20 request] in
  NoDuplicates (room w)
  ∧ (processRequest 20 request w).1 = Ok tt
  ∧ v_id <$> queue (room w') = ["B"; "B"; "C"]
  ∧ ¬ NoDuplicates (room w').
Proof.
  intros w request w'. repeat apply conj; try by vm_compute.
  - unfold NoDuplicates. apply (bool_decide_unpack _). by vm_compute.
  - unfold NoDuplicates. apply (bool_decide_eq_false_1 _). by vm_compute.
Qed.

Lemma demo_extractorFaithful : extractorFaithful.
Proof. intros service id v [= <-]. done. Qed.

Lemma queue_has_no_duplicates_witness :
  NoDuplicates
    (room (afterSteps (newWorld 0 Demo.optionsR)
             (take 6 [ DoRequest 0 (JoinRequest "1" (Demo.guest "1"));
                       Demo.addVideo 1 "1" Demo.vidA;
                       Demo.addVideo 2 "1" Demo.vidB;
                       DoUpdate 5;
                       DoRequest 10 (SkipRequest "1");
                       DoRequest 20
                         (UndoRequest "1" (SkipRequest "1")
                            {| ctx_video := Some (Demo.demoVideo "youtube" "A");
                               ctx_videos := None;
                               ctx_prevPosition := Some 0%Q;
                               ctx_queueIdx := None |}) ]))).
Proof.
  apply (queue_has_no_duplicates (C := Demo.demoCollaborators) 0 Demo.optionsR
           _ 6 demo_extractorFaithful).
  vm_compute. repeat apply conj; try done.
  intros v [= <-] Hin. inversion Hin as [|? ? ? Hin']. inversion Hin'.
Defined.

(** What the stale clock of C2 does next: after the skip the room is not
    playing, B is added and becomes the current source at position 0; a
    later tick measures the position from the old [playbackStart], finds B
    over and drops it, though B never played. *)
Lemma stale_clock_drops_paused_video :
  let w := afterSteps Demo.lastVideoPlaying
             [ DoRequest 2010 (SkipRequest "1"); Demo.addVideo 3000 "1" Demo.vidB;
               DoUpdate 4000 ] in
  isPlaying (room w) = false
  ∧ currentSource (room w) = Some (Demo.demoVideo "youtube" "B")
  ∧ playbackPosition (room w) = 0%Q
  ∧ currentSource (room (afterSteps w [DoUpdate 200000])) = None.
Proof. intros w. repeat apply conj; by vm_compute. Qed.

(** ** Failed requests *)

Section Atomicity.
Context {C : Collaborators}.

Lemma Untouched_refl (w : World) : Untouched w w.
Proof. done. Qed.






















End Atomicity.


(** ** Editing the queue *)

Section QueueEdits.
Context {C : Collaborators}.

Lemma findIndex_first {A} (p : A → bool) (l : list A) (i : nat) (x : A) :
  l !! i = Some x → p x = true →
  (∀ j y, (j < i)%nat → l !! j = Some y → p y = false) →
  findIndex p l = Some i.
Proof.
  revert i. induction l as [|a l IH]; intros [|i] Hi Hx Hbefore; simpl in *;
    try done.
  - injection Hi as ->. by rewrite Hx.
  - rewrite (Hbefore 0%nat a) by (lia || done).
    rewrite (IH i); [done..|].
    intros j y Hj Hy. apply (Hbefore (S j) y); [lia|done].
Qed.

Lemma findIndex_before {A} (p : A → bool) (l : list A) (i : nat) :
  findIndex p l = Some i →
  ∀ j y, (j < i)%nat → l !! j = Some y → p y = false.
Proof.
  revert i. induction l as [|a l IH]; intros i; simpl; [done|].
  destruct (p a) eqn:Ha.
  - intros [= <-] j y Hj. lia.
  - destruct (findIndex p l) as [k|]; simpl; [|done].
    intros [= <-] [|j] y Hj Hy; simpl in *.
    + by injection Hy as <-.
    + apply (IH k eq_refl j y); [lia|done].
Qed.

Lemma findIndex_app_last {A} (p : A → bool) (l : list A) (x : A) :
  findIndex p l = None → p x = true → findIndex p (l ++ [x]) = Some (length l).
Proof.
  intros Hl Hx. induction l as [|a l IH]; simpl in *; [by rewrite Hx|].
  destruct (p a); [done|].
  destruct (findIndex p l); simpl in *; [done|]. by rewrite IH.
Qed.

Lemma delete_app_last {A} (l : list A) (x : A) :
  delete (length l) (l ++ [x]) = l.
Proof. induction l as [|a l IH]; simpl; [done|]. by rewrite IH. Qed.

Lemma splice_back {A} (l : list A) (i : nat) (x : A) :
  (i < length l)%nat →
  take i (delete i l) ++ x :: drop i (delete i l) = <[i := x]> l.
Proof.
  revert i. induction l as [|a l IH]; intros [|i] Hi; simpl in *; try lia.
  - by rewrite drop_0.
  - by rewrite IH by lia.
Qed.

Lemma sameVideo_key (vid : VideoId) (v : Video) :
  sameVideo (vi_service vid) (vi_id vid) v = true
  ↔ videoKey v = (vi_service vid, vi_id vid).
Proof.
  rewrite sameVideo_true. unfold videoKey. split; [by intros [-> ->]|].
  by intros [= -> ->].
Qed.

(** X2.  [removeFromQueue]: a video that is not in the queue (the current
    source does not count) gives [VideoNotFound] and changes nothing; one
    that is in the queue is taken out at its first position [i], [queue]
    is marked dirty and the event carries the removed video and [i]. *)
Theorem removeFromQueue_first_match (w : World) (c : ClientId) (vid : VideoId) :
  ((vi_service vid, vi_id vid) ∉ videoKey <$> queue (room w) →
   removeFromQueue c (Some vid) w = (Throw VideoNotFound, w))
  ∧ (∀ i v,
       queue (room w) !! i = Some v →
       videoKey v = (vi_service vid, vi_id vid) →
       (∀ j y, (j < i)%nat → queue (room w) !! j = Some y →
               videoKey y ≠ (vi_service vid, vi_id vid)) →
       removeFromQueue c (Some vid) w =
         (Ok tt,
          {| room := upd_dirty ({[F_queue]} ∪ dirty (room w))
                       (upd_queue (delete i (queue (room w))) (room w));
             kv := kv w;
             published := published w ++
               [("room:" +:+ name (room w),
                 MsgEvent (RemoveRequest c (Some vid))
                   (getUserInfo (room w) c)
                   (Some {| ctx_video := Some v; ctx_videos := None;
                            ctx_prevPosition := None;
                            ctx_queueIdx := Some (Z.of_nat i) |}))];
             checks := checks w |})).
Proof.
  split.
  - intros Hout.
    pose proof (proj2 (sameVideo_nowhere _ _ _) Hout) as Hall.
    apply findIndex_None_all in Hall.
    unfold removeFromQueue. run. by rewrite Hall.
  - intros i v Hi Hkey Hbefore.
    assert (findIndex (sameVideo (vi_service vid) (vi_id vid)) (queue (room w))
            = Some i) as Hidx.
    { apply (findIndex_first _ _ i v); [done|by apply sameVideo_key|].
      intros j y Hj Hy. apply not_true_iff_false. rewrite sameVideo_key.
      by apply (Hbefore j y). }
    unfold removeFromQueue. run. rewrite Hidx. run. by rewrite Hi.
Qed.

(** X3.  Add, then undo the add.  After a single video was added, the undo of
    that add by a participant who may remove from the queue takes the
    video out again: queue and current source are as before the add. *)
Theorem add_then_undo (w : World) (now : Z) (c c' : ClientId) (u : RoomUser)
    (vid : VideoId) (v : Video) (ctx : RoomEventContext) :
  ¬ Queued (room w) vid →
  getVideoInfo (vi_service vid) (vi_id vid) = Some v →
  videoKey v = (vi_service vid, vi_id vid) →
  getUser (room w) c' = Some u →
  grantsCheck (grants (room w)) (getRole (room w) u)
    (Some "manage-queue.remove") = true →
  let request := AddRequest c None (Some vid) None in
  let w1 := (addToQueue c None (Some vid) None w).2 in
  let w2 := (processRequest now (UndoRequest c' request ctx) w1).2 in
  (addToQueue c None (Some vid) None w).1 = Ok tt
  ∧ (processRequest now (UndoRequest c' request ctx) w1).1 = Ok tt
  ∧ queue (room w2) = queue (room w)
  ∧ currentSource (room w2) = currentSource (room w).
Proof.
  intros Hfresh Hv Hkey Huser Hmay.
  rewrite addToQueue_tests in Hfresh.
  destruct (match currentSource (room w) with
            | Some c0 => sameVideo (vi_service vid) (vi_id vid) c0
            | None => false end) eqn:Hc; [naive_solver|].
  destruct (findIndex (sameVideo (vi_service vid) (vi_id vid)) (queue (room w)))
    eqn:Hq; [naive_solver|].
  assert (addToQueue c None (Some vid) None w =
          (Ok tt,
           {| room := upd_dirty ({[F_queue]} ∪ dirty (room w))
                        (upd_queue (queue (room w) ++ [v]) (room w));
              kv := kv w;
              published := published w ++
                [("room:" +:+ name (room w),
                  MsgEvent (AddRequest c None (Some vid) None)
                    (getUserInfo (room w) c)
                    (Some {| ctx_video := Some v; ctx_videos := None;
                             ctx_prevPosition := None; ctx_queueIdx := None |}))];
              checks := checks w |})) as Hadd.
  { unfold addToQueue. run. by rewrite Hc, Hq, Hv. }
  simpl. rewrite Hadd. simpl.
  set (w1 := {| room := _; kv := _; published := _; checks := _ |}).
  match goal with
  | |- context [processRequest ?n ?r ?x] =>
      remember (processRequest n r x) as res eqn:Hres
  end.
  unfold processRequest in Hres. simpl in Hres.
  rewrite processRequestWith_unguarded in Hres by done. simpl in Hres.
  unfold undo in Hres. unfold bind at 1, getRoom at 1 in Hres.
  replace (0 <? length (queue (room w1)))%nat with true in Hres
    by (symmetry; apply Nat.ltb_lt; simpl; rewrite length_app; simpl; lia).
  rewrite (processRequestWith_guarded _ w1 now _ u "manage-queue.remove")
    in Hres by done.
  change (getRole (room w1) u) with (getRole (room w) u) in Hres.
  change (grants (room w1)) with (grants (room w)) in Hres.
  rewrite Hmay in Hres. simpl in Hres. unfold removeFromQueue in Hres.
  unfold bind at 1, getRoom at 1 in Hres. simpl in Hres.
  rewrite (findIndex_app_last _ _ v Hq) in Hres by by apply sameVideo_key.
  rewrite delete_app_last in Hres.
  subst res. by run.
Qed.

(** X4.  Remove, then undo the remove.  The undo needs no permission.  It puts
    an entry back at the position the video was removed from, so the
    queue has the same (service, id) pairs in the same order as before,
    but the entry is the bare id of the request: the removed video's
    metadata is not restored. *)
Theorem remove_then_undo (w : World) (now : Z) (c c' : ClientId)
    (vid : VideoId) (i : nat) :
  findIndex (sameVideo (vi_service vid) (vi_id vid)) (queue (room w)) = Some i →
  let ctx := {| ctx_video := queue (room w) !! i; ctx_videos := None;
                ctx_prevPosition := None; ctx_queueIdx := Some (Z.of_nat i) |} in
  let w1 := (removeFromQueue c (Some vid) w).2 in
  let w2 := (processRequest now
               (UndoRequest c' (RemoveRequest c (Some vid)) ctx) w1).2 in
  (removeFromQueue c (Some vid) w).1 = Ok tt
  ∧ (∃ user, last (published w1) =
       Some ("room:" +:+ name (room w),
             MsgEvent (RemoveRequest c (Some vid)) user (Some ctx)))
  ∧ (processRequest now (UndoRequest c' (RemoveRequest c (Some vid)) ctx) w1).1
    = Ok tt
  ∧ checks w2 = checks w
  ∧ queue (room w2) = <[i := videoOfId vid]> (queue (room w))
  ∧ videoKey <$> queue (room w2) = videoKey <$> queue (room w).
Proof.
  intros Hidx.
  destruct (findIndex_Some _ _ _ Hidx) as (v & Hi & Hv).
  pose proof (lookup_lt_Some _ _ _ Hi) as Hlen.
  cbv zeta.
  remember (removeFromQueue c (Some vid) w) as removed eqn:Hremoved.
  match goal with
  | |- context [processRequest ?n ?r ?x] =>
      remember (processRequest n r x) as res eqn:Hres
  end.
  unfold processRequest in Hres. simpl in Hres.
  rewrite processRequestWith_unguarded in Hres by done. simpl in Hres.
  unfold removeFromQueue in Hremoved. run. rewrite Hidx in Hremoved. run.
  subst removed. simpl in *. rewrite last_snoc.
  split; [done|]. split; [by eexists|].
  replace (spliceCount (length (delete i (queue (room w)))) (Some (Z.of_nat i)))
    with i in Hres.
  2:{ unfold spliceCount. simpl. rewrite length_delete by by eexists. lia. }
  rewrite splice_back in Hres by done.
  subst res. simpl.
  repeat split; [done..|].
  rewrite list_fmap_insert. apply list_insert_id.
  rewrite list_lookup_fmap, Hi. simpl. f_equal.
  apply sameVideo_key in Hv. by rewrite Hv.
Qed.

End QueueEdits.

Section QueueEdits2.
Context {C : Collaborators}.

Lemma filter_not_colliding (r : Room) (l : list Video) :
  List.filter (λ v, negb (collides r (v_service v) (v_id v))) l =
  filter (λ v, videoKey v ∉ sourceKeys r) l.
Proof.
  induction l as [|v l IH]; simpl; [done|].
  rewrite filter_cons, IH.
  destruct (collides r (v_service v) (v_id v)) eqn:Hv; simpl.
  - rewrite decide_False; [done|]. intros Hout.
    apply collides_false in Hout. congruence.
  - rewrite decide_True; [done|]. by apply collides_false.
Qed.

(** X5.  A batch add keeps, in their order, the fetched videos whose (service,
    id) is neither current nor in the queue.  When none is kept (so also
    for an empty batch) it throws [VideoAlreadyQueued] and changes
    nothing; otherwise the kept videos go to the end of the queue, [queue]
    is marked dirty and one event carries them. *)
Theorem addToQueue_batch (w : World) (c : ClientId) (url : option string)
    (vids : list VideoId) (fetched : list Video) :
  truthyStr url = false →
  getManyVideoInfo vids = Some fetched →
  let kept := filter (λ v, videoKey v ∉ sourceKeys (room w)) fetched in
  addToQueue c url None (Some vids) w =
    match kept with
    | [] => (Throw VideoAlreadyQueued, w)
    | _ :: _ =>
        (Ok tt,
         {| room := upd_dirty ({[F_queue]} ∪ dirty (room w))
                      (upd_queue (queue (room w) ++ kept) (room w));
            kv := kv w;
            published := published w ++
              [("room:" +:+ name (room w),
                MsgEvent (AddRequest c url None (Some vids))
                  (getUserInfo (room w) c)
                  (Some {| ctx_video := None; ctx_videos := Some kept;
                           ctx_prevPosition := None; ctx_queueIdx := None |}))];
            checks := checks w |})
    end.
Proof.
  intros Hurl Hfetched kept. unfold addToQueue. rewrite Hurl. run.
  rewrite Hfetched, filter_not_colliding. fold kept.
  by destruct kept.
Qed.

(** X6.  [reorderQueue] with both indices inside the queue: the video at
    [fromIdx] ends up at [toIdx], the queue keeps its videos, [queue] is
    marked dirty, and no event is published. *)
Theorem reorderQueue_moves (w : World) (c : ClientId) (fromIdx toIdx : nat) :
  (fromIdx < length (queue (room w)))%nat →
  (toIdx < length (queue (room w)))%nat →
  let w' := (reorderQueue c (Z.of_nat fromIdx) (Z.of_nat toIdx) w).2 in
  (reorderQueue c (Z.of_nat fromIdx) (Z.of_nat toIdx) w).1 = Ok tt
  ∧ queue (room w') !! toIdx = queue (room w) !! fromIdx
  ∧ queue (room w') ≡ₚ queue (room w)
  ∧ F_queue ∈ dirty (room w')
  ∧ published w' = published w.
Proof.
  intros Hfrom Hto.
  destruct (lookup_lt_is_Some_2 _ _ Hfrom) as [video Hvideo].
  assert (spliceStart (length (queue (room w))) (Z.of_nat fromIdx) = fromIdx)
    as Hi by (unfold spliceStart; case_match; lia).
  assert (spliceStart (length (delete fromIdx (queue (room w)))) (Z.of_nat toIdx)
          = toIdx) as Hj.
  { unfold spliceStart. rewrite length_delete by by eexists. case_match; lia. }
  cbv zeta.
  remember (reorderQueue c (Z.of_nat fromIdx) (Z.of_nat toIdx) w) as res eqn:Hres.
  unfold reorderQueue in Hres. run. rewrite Hi, Hvideo in Hres. run.
  rewrite Hj in Hres. subst res. simpl.
  split; [done|]. split; [|split; [|split; [set_solver|done]]].
  - rewrite Hvideo, lookup_app_r; rewrite length_take, length_delete by by eexists.
    + replace (toIdx - toIdx `min` (length (queue (room w)) - 1))%nat with 0%nat
        by lia. done.
    + lia.
  - rewrite <- Permutation_middle, take_drop. symmetry.
    by apply delete_Permutation.
Qed.

(** X7.  The undo of an event that is none of seek, skip, add, remove does
    nothing at all, for any client: no check, no change, nothing
    published. *)
Theorem undo_other_event_ignored (w : World) (now : Z) (c : ClientId)
    (ev : RoomRequest) (ctx : RoomEventContext) :
  requestType ev ∉ [TSeekRequest; TSkipRequest; TAddRequest; TRemoveRequest] →
  processRequest now (UndoRequest c ev ctx) w = (Ok tt, w).
Proof.
  intros Htype. unfold processRequest. simpl.
  rewrite processRequestWith_unguarded by done. simpl.
  destruct ev; simpl in *; try done; set_solver.
Qed.

End QueueEdits2.

Lemma removeFromQueue_first_match_witness :
  let w := Demo.threeVideos in
  removeFromQueue "1" (Some Demo.vidA) w = (Throw VideoNotFound, w)
  ∧ (removeFromQueue "1" (Some Demo.vidC) w).1 = Ok tt
  ∧ v_id <$> queue (room (removeFromQueue "1" (Some Demo.vidC) w).2) = ["B"].
Proof.
  intros w.
  destruct (removeFromQueue_first_match w "1" Demo.vidA) as [Hmiss _].
  destruct (removeFromQueue_first_match w "1" Demo.vidC) as [_ Hhit].
  split; [|split].
  - apply Hmiss. apply (bool_decide_unpack _). by vm_compute.
  - rewrite (Hhit 1%nat (Demo.demoVideo "youtube" "C")); [done..|].
    intros [|j] y Hj Hy; [|lia]. vm_compute in Hy. by injection Hy as <-.
  - rewrite (Hhit 1%nat (Demo.demoVideo "youtube" "C")); [done..|].
    intros [|j] y Hj Hy; [|lia]. vm_compute in Hy. by injection Hy as <-.
Defined.

Lemma add_then_undo_witness :
  let w := Demo2.ownedRoom in
  let request := AddRequest "1" None (Some Demo2.vidD) None in
  let w1 := (addToQueue "1" None (Some Demo2.vidD) None w).2 in
  let w2 := (processRequest 20 (UndoRequest "9" request noContext) w1).2 in
  (addToQueue "1" None (Some Demo2.vidD) None w).1 = Ok tt
  ∧ (processRequest 20 (UndoRequest "9" request noContext) w1).1 = Ok tt
  ∧ queue (room w2) = queue (room w)
  ∧ currentSource (room w2) = currentSource (room w).
Proof.
  apply (add_then_undo Demo2.ownedRoom 20 "1" "9" Demo2.ownerUser
           Demo2.vidD (Demo.demoVideo "youtube" "D") noContext).
  - rewrite addToQueue_tests. vm_compute. intros [?|[? ?]]; done.
  - by vm_compute.
  - by vm_compute.
  - by vm_compute.
  - by vm_compute.
Defined.

Lemma remove_then_undo_witness :
  let w := Demo.threeVideos in
  let ctx := {| ctx_video := queue (room w) !! 1%nat; ctx_videos := None;
                ctx_prevPosition := None; ctx_queueIdx := Some (Z.of_nat 1) |} in
  let w1 := (removeFromQueue "1" (Some Demo.vidC) w).2 in
  let w2 := (processRequest 20
               (UndoRequest "2" (RemoveRequest "1" (Some Demo.vidC)) ctx) w1).2 in
  (removeFromQueue "1" (Some Demo.vidC) w).1 = Ok tt
  ∧ (∃ user, last (published w1) =
       Some ("room:" +:+ name (room w),
             MsgEvent (RemoveRequest "1" (Some Demo.vidC)) user (Some ctx)))
  ∧ (processRequest 20
       (UndoRequest "2" (RemoveRequest "1" (Some Demo.vidC)) ctx) w1).1 = Ok tt
  ∧ checks w2 = checks w
  ∧ queue (room w2) = <[1%nat := videoOfId Demo.vidC]> (queue (room w))
  ∧ videoKey <$> queue (room w2) = videoKey <$> queue (room w).
Proof.
  apply (remove_then_undo Demo.threeVideos 20 "1" "2" Demo.vidC 1).
  by vm_compute.
Defined.

Lemma addToQueue_batch_witness :
  let w := Demo.threeVideos in
  addToQueue "1" None None (Some [Demo.vidA; Demo.vidB]) w
    = (Throw VideoAlreadyQueued, w)
  ∧ addToQueue "1" None None (Some []) w = (Throw VideoAlreadyQueued, w)
  ∧ v_id <$> queue (room (addToQueue "1" None None
                            (Some [Demo.vidB; Demo2.vidD]) w).2)
    = ["B"; "C"; "D"].
Proof.
  intros w. split; [|split].
  - rewrite (addToQueue_batch w "1" None [Demo.vidA; Demo.vidB]
               [Demo.demoVideo "youtube" "A"; Demo.demoVideo "youtube" "B"]);
      [by vm_compute|done|done].
  - by rewrite (addToQueue_batch w "1" None [] []).
  - rewrite (addToQueue_batch w "1" None [Demo.vidB; Demo2.vidD]
               [Demo.demoVideo "youtube" "B"; Demo.demoVideo "youtube" "D"]);
      [by vm_compute|done|done].
Defined.

Lemma reorderQueue_moves_witness :
  let w := Demo.threeVideos in
  let w' := (reorderQueue "1" (Z.of_nat 1) (Z.of_nat 0) w).2 in
  (reorderQueue "1" (Z.of_nat 1) (Z.of_nat 0) w).1 = Ok tt
  ∧ queue (room w') !! 0%nat = queue (room w) !! 1%nat
  ∧ queue (room w') ≡ₚ queue (room w)
  ∧ F_queue ∈ dirty (room w')
  ∧ published w' = published w.
Proof.
  apply (reorderQueue_moves Demo.threeVideos "1" 1 0); vm_compute; lia.
Defined.

Lemma undo_other_event_ignored_witness :
  processRequest 20 (UndoRequest "2" (PlaybackRequest "1" true) noContext)
    Demo.threeVideos = (Ok tt, Demo.threeVideos).
Proof.
  apply (undo_other_event_ignored Demo.threeVideos 20 "2"
           (PlaybackRequest "1" true) noContext).
  apply (bool_decide_unpack _). by vm_compute.
Defined.

(** ** What the steps leave alone *)

Section Frames.
Context {C : Collaborators}.

Lemma Keeps_any_getRoleOf I user : Keeps I (getRoleOf user).
Proof. destruct user; by intros w. Qed.

Lemma Keeps_any_liftUser {A} I (c : M RoomUser A) u : Keeps I (liftUser c u).
Proof. intros w Hw. unfold liftUser. by destruct (c u) as [[] ?]. Qed.

Section Projection.
Context {X : Type} (π : Room → X) (x : X).

Lemma Keeps_proj_onRoom (f : Room → Room) :
  (∀ r, π (f r) = π r) → Keeps (projIs π x) (onRoom f).
Proof. intros Hf w Hw. unfold projIs in *. simpl. by rewrite Hf. Qed.

Lemma Keeps_proj_publish msg : Keeps (projIs π x) (publish msg).
Proof. by intros w. Qed.

Lemma Keeps_proj_busSet key value : Keeps (projIs π x) (busSet key value).
Proof. by intros w. Qed.

Lemma Keeps_proj_publishRoomEvent request additional :
  Keeps (projIs π x) (publishRoomEvent request additional).
Proof. by intros w. Qed.

Lemma Keeps_proj_check role permission :
  Keeps (projIs π x) (check role permission).
Proof. intros w Hw. unfold check. run. by destruct (grantsCheck _ _ _). Qed.

End Projection.

(** Close a goal [Keeps (projIs π x) c] for a [c] built from the monad and
    from updates that [π] is stable under (facts in the context). *)
Ltac stable_update :=
  intros ?; simpl;
  repeat match goal with
         | H : ∀ x r, _ (_ x r) = _ r |- _ => rewrite !H
         end; reflexivity.

Ltac pframe :=
  repeat first
    [ apply Keeps_ret | apply Keeps_throw | apply Keeps_stuck
    | apply Keeps_getRoom | apply Keeps_proj_publish
    | apply Keeps_proj_busSet | apply Keeps_proj_publishRoomEvent
    | apply Keeps_any_getRoleOf | apply Keeps_proj_check
    | apply Keeps_any_liftUser | apply Keeps_when
    | apply Keeps_proj_onRoom; stable_update
    | apply Keeps_bind; [|intros ?]
    | case_match ].

Section Handlers.
Context {X : Type} (π : Room → X) (x : X).

Lemma dequeueNext_proj :
  StableBasic π → StableClock π → Keeps (projIs π x) dequeueNext.
Proof.
  intros (? & ? & ? & ? & ? & ? & ?) (? & ?).
  unfold dequeueNext, markDirty, set_currentSource, set_isPlaying,
    set_playbackPosition, markDirty. pframe.
Qed.

Lemma update_proj now :
  StableBasic π → StableClock π → Keeps (projIs π x) (update now).
Proof.
  intros Hb Hc. pose proof (dequeueNext_proj Hb Hc) as Hd.
  destruct Hb as (? & ? & ? & ? & ? & ? & ?). destruct Hc as (? & ?).
  unfold update, markDirty.
  apply Keeps_bind; [apply Keeps_getRoom|]. intros r.
  apply Keeps_bind; [by apply Keeps_when|]. intros _. pframe.
Qed.

Lemma sync_proj : StableBasic π → Keeps (projIs π x) sync.
Proof.
  intros (? & ? & ? & ? & ? & ? & ?). unfold sync. pframe.
Qed.

(** The handlers that touch neither the clock nor the role sets. *)
Lemma handle_proj_plain h now request :
  StableBasic π →
  requestType request ∉ [TPlaybackRequest; TSkipRequest; TPromoteRequest] →
  (∀ c ev ctx, Keeps (projIs π x) (h c ev ctx)) →
  Keeps (projIs π x) (handle h now request).
Proof.
  intros (? & ? & ? & ? & ? & ? & ?) Htype Hh.
  assert (requestType request ≠ TPlaybackRequest
          ∧ requestType request ≠ TSkipRequest
          ∧ requestType request ≠ TPromoteRequest) as (Hn1 & Hn2 & Hn3)
    by (repeat split; intros Heq; apply Htype; rewrite Heq; set_solver).
  clear Htype.
  destruct request; simpl; [..|by apply Hh]; try done.
  - unfold joinRoom, markDirty. pframe.
  - unfold leaveRoom, markDirty. pframe.
  - unfold seek, set_playbackPosition, markDirty. pframe.
  - unfold addToQueue, markDirty. pframe.
  - unfold removeFromQueue, markDirty. pframe.
  - unfold reorderQueue, markDirty. pframe.
  - unfold vote, markDirty. pframe.
  - unfold updateUser, markDirty. pframe.
  - unfold chat. pframe.
Qed.

Lemma playback_proj now c state :
  StableBasic π → StableClock π → Keeps (projIs π x) (playback now c state).
Proof.
  intros (? & ? & ? & ? & ? & ? & ?) (? & ?).
  unfold playback, play, pause, set_isPlaying, set_playbackPosition, markDirty.
  pframe.
Qed.

Lemma skip_proj now c :
  StableBasic π → StableClock π → Keeps (projIs π x) (skip now c).
Proof.
  intros Hb Hc. pose proof (dequeueNext_proj Hb Hc) as Hd.
  unfold skip. apply Keeps_bind; [apply Keeps_getRoom|]. intros r.
  apply Keeps_bind; [done|]. intros _. apply Keeps_proj_publishRoomEvent.
Qed.

Lemma promoteUser_proj c target role :
  StableBasic π → StableRoles π → Keeps (projIs π x) (promoteUser c target role).
Proof.
  intros (? & ? & ? & ? & ? & ? & ?) Hr. unfold StableRoles in Hr.
  unfold promoteUser, markDirty. pframe.
Qed.

Lemma processRequestWith_proj h now request :
  Keeps (projIs π x) (handle h now request) →
  Keeps (projIs π x) (processRequestWith h now request).
Proof.
  intros Hh. unfold processRequestWith.
  apply Keeps_bind; [apply Keeps_getRoom|]. intros r.
  apply Keeps_bind; [pframe|]. by intros _.
Qed.

Lemma undo_proj (process : RoomRequest → M World unit) c ev ctx :
  StableBasic π →
  (∀ c value, Keeps (projIs π x) (process (SeekRequest c value))) →
  (∀ c video, Keeps (projIs π x) (process (RemoveRequest c video))) →
  Keeps (projIs π x) (undo process c ev ctx).
Proof.
  intros (? & ? & ? & ? & ? & ? & ?) Hseek Hremove.
  destruct ev; simpl; try apply Keeps_ret.
  - unfold set_currentSource, set_playbackPosition, markDirty. pframe.
  - apply Hseek.
  - apply Keeps_bind; [apply Keeps_getRoom|]. intros r.
    case_match; [apply Hremove|]. unfold set_currentSource, markDirty. pframe.
  - unfold markDirty. pframe.
Qed.

Lemma nested_undo_proj now c ev ctx :
  StableBasic π → Keeps (projIs π x) (undo (processRequestN 0 now) c ev ctx).
Proof.
  intros Hb. apply undo_proj; [done|..]; intros; simpl;
    (apply processRequestWith_proj, handle_proj_plain;
       [done|by apply (bool_decide_unpack _)|]);
    intros; apply Keeps_stuck.
Qed.

End Handlers.

End Frames.

Section Invariants.
Context {C : Collaborators}.

Lemma settings_stable : StableBasic settings ∧ StableClock settings ∧ StableRoles settings.
Proof. repeat split. Qed.

Lemma clock_stable : StableBasic clock ∧ StableRoles clock.
Proof. repeat split. Qed.

Lemma userRoles_stable : StableBasic userRoles ∧ StableClock userRoles.
Proof. repeat split. Qed.

Lemma Keeps_proj_pred {A X} (π : Room → X) (P : Room → Prop) (c : M World A) :
  (∀ x, Keeps (projIs π x) c) →
  (∀ r r', π r' = π r → P r → P r') →
  Keeps (λ w, P (room w)) c.
Proof.
  intros Hc HP w Hw. apply (HP (room w)); [|done].
  by apply (Hc (π (room w)) w).
Qed.

(** Before the handler, [processRequest] leaves the room as it is. *)
Lemma processRequestWith_cases (P : Room → Prop) h now request (w : World) :
  P (room w) →
  (∀ w1, room w1 = room w → P (room (handle h now request w1).2)) →
  P (room (processRequestWith h now request w).2).
Proof.
  intros Hw Hhandle. unfold processRequestWith.
  unfold bind at 1, getRoom at 1. simpl.
  destruct (permissions (requestType request)) as [permission|].
  - unfold bind at 1. unfold bind at 1. unfold getRoleOf.
    destruct (getUser (room w) (requestClient request)) as [u|]; [|done].
    unfold bind at 1, getRoom at 1, ret at 1, check.
    unfold bind at 1, modify at 1. unfold bind at 1, getRoom at 1. simpl.
    destruct (grantsCheck _ _ _); [|done]. by apply Hhandle.
  - unfold bind at 1, ret at 1. by apply Hhandle.
Qed.

Lemma processRequestWith_room (P : Room → Prop) h now request :
  Keeps (λ w, P (room w)) (handle h now request) →
  Keeps (λ w, P (room w)) (processRequestWith h now request).
Proof.
  intros Hh w Hw. apply processRequestWith_cases; [done|].
  intros w1 Hroom. apply Hh. by rewrite Hroom.
Qed.

Lemma processRequest_proj {X} (π : Room → X) (x : X) now request :
  StableBasic π → StableClock π → StableRoles π →
  Keeps (projIs π x) (processRequest now request).
Proof.
  intros Hb Hc Hr. unfold processRequest. simpl.
  apply processRequestWith_proj.
  destruct request;
    first [ by apply playback_proj | by apply skip_proj
          | by apply promoteUser_proj
          | apply handle_proj_plain;
              [done|by apply (bool_decide_unpack _)|];
            intros; by apply nested_undo_proj ].
Qed.

(** X8.  No request, tick or sync changes the name, the title, the description,
    the visibility, the queue mode, the temporary flag, the grants or the
    owner of a room. *)
Theorem steps_keep_settings (w : World) (steps : list Step) :
  settings (room (afterSteps w steps)) = settings (room w).
Proof.
  destruct settings_stable as (Hb & Hc & Hr).
  revert w. induction steps as [|s steps IH]; intros w; simpl; [done|].
  rewrite IH. unfold afterStep.
  destruct s as [now request|now|]; simpl.
  - by apply (processRequest_proj settings (settings (room w)) now request).
  - by apply (update_proj settings (settings (room w)) now).
  - by apply (sync_proj settings (settings (room w))).
Qed.

Lemma dropFromRoles_subset (uid : option Z) (ur : UserRoles) :
  (trustedUsers (dropFromRoles uid ur) ⊆ trustedUsers ur)
  ∧ (moderators (dropFromRoles uid ur) ⊆ moderators ur)
  ∧ (administrators (dropFromRoles uid ur) ⊆ administrators ur).
Proof. destruct uid; simpl; set_solver. Qed.

Lemma dropFromRoles_gone (n : Z) (ur : UserRoles) :
  (n ∉ trustedUsers (dropFromRoles (Some n) ur))
  ∧ (n ∉ moderators (dropFromRoles (Some n) ur))
  ∧ (n ∉ administrators (dropFromRoles (Some n) ur)).
Proof. simpl. set_solver. Qed.

Lemma rolesAlter_add_disjoint (n : Z) (role : Role) (ur : UserRoles) :
  RolesDisjoint ur →
  n ∉ trustedUsers ur → n ∉ moderators ur → n ∉ administrators ur →
  RolesDisjoint (rolesAlter (λ s, s ∪ {[n]}) role ur).
Proof. unfold RolesDisjoint. destruct role; simpl; set_solver. Qed.

Lemma promoteUser_RolesDisjoint c target role :
  Keeps (λ w, RolesDisjoint (userRoles (room w))) (promoteUser c target role).
Proof.
  unfold promoteUser.
  apply Keeps_bind; [apply Keeps_getRoom|]. intros r.
  apply Keeps_bind; [apply Keeps_any_getRoleOf|]. intros userRole.
  assert (∀ role p, Keeps (λ w, RolesDisjoint (userRoles (room w))) (check role p))
    as Hcheck.
  { intros role' p w Hw. unfold check. run. by destruct (grantsCheck _ _ _). }
  apply Keeps_bind; [apply Hcheck|]. intros _.
  apply Keeps_bind; [apply Keeps_any_getRoleOf|]. intros targetRole.
  apply Keeps_bind.
  { apply Keeps_when. case_match; first [apply Hcheck | apply Keeps_throw]. }
  intros _. case_match; [apply Keeps_throw|].
  intros w Hw.
  pose proof (dropFromRoles_subset (getUser r target ≫= ru_user_id)
                (userRoles (room w))) as (Ht & Hm & Ha).
  assert (RolesDisjoint (dropFromRoles (getUser r target ≫= ru_user_id)
                           (userRoles (room w)))) as Hdropped.
  { unfold RolesDisjoint in *. set_solver. }
  run. destruct (2 <=? roleRank role)%Z; simpl; [|done].
  destruct (rolesGet (userRoles r) role); simpl; [|done].
  destruct (getUser r target ≫= ru_user_id) as [n|] eqn:Huid; simpl; [|done].
  pose proof (dropFromRoles_gone n (userRoles (room w))) as (? & ? & ?).
  by apply rolesAlter_add_disjoint.
Qed.

Lemma afterStep_RolesDisjoint (w : World) (s : Step) :
  RolesDisjoint (userRoles (room w)) →
  RolesDisjoint (userRoles (room (afterStep w s))).
Proof.
  destruct userRoles_stable as (Hb & Hc).
  assert (∀ A (c : M World A), (∀ x, Keeps (projIs userRoles x) c) →
            Keeps (λ w, RolesDisjoint (userRoles (room w))) c) as Hlift.
  { intros A c Hc'.
    apply (Keeps_proj_pred userRoles (λ r, RolesDisjoint (userRoles r))); [done|].
    by intros r r' ->. }
  assert (Keeps (λ w, RolesDisjoint (userRoles (room w))) (runStep s)) as Hstep;
    [|exact (Hstep w)].
  destruct s as [now request|now|]; simpl.
  - unfold processRequest. simpl.
    apply (processRequestWith_room (λ r, RolesDisjoint (userRoles r))).
    destruct request;
      first [ apply promoteUser_RolesDisjoint
            | apply Hlift; intros x;
              first [ by apply playback_proj | by apply skip_proj
                    | apply handle_proj_plain;
                        [done|by apply (bool_decide_unpack _)|];
                      intros; by apply nested_undo_proj ] ].
  - apply Hlift. intros x. by apply update_proj.
  - apply Hlift. intros x. by apply sync_proj.
Qed.

(** X9.  In every state a room reaches from its construction, no user id is in
    two of the role sets: a promotion takes the target out of all three
    before it puts it into one. *)
Theorem role_sets_stay_disjoint (now : Z) (options : RoomOptions)
    (steps : list Step) :
  RolesDisjoint (userRoles (room (afterSteps (newWorld now options) steps))).
Proof.
  assert (RolesDisjoint (userRoles (room (newWorld now options)))) as Hnew
    by (unfold RolesDisjoint; simpl; set_solver).
  revert Hnew. generalize (newWorld now options).
  induction steps as [|s steps IH]; intros w Hw; simpl; [done|].
  by apply IH, afterStep_RolesDisjoint.
Qed.

Lemma skip_clock now c (w : World) :
  isPlaying (room w) = false ∨ queue (room w) ≠ [] →
  clock (room (skip now c w).2) = clock (room w).
Proof.
  intros Hside. unfold skip, dequeueNext. run.
  destruct (queue (room w)) as [|v rest]; simpl; [|done].
  destruct Hside as [Hp|Hq]; [|done]. rewrite Hp.
  by destruct (currentSource (room w)).
Qed.

Lemma ClockInvariant_clock (r r' : Room) :
  clock r' = clock r → ClockInvariant r → ClockInvariant r'.
Proof. unfold clock, ClockInvariant. by intros [= -> ->]. Qed.

(** X10.  Every request keeps "[isPlaying] exactly when [playbackStart] is set",
    but for a skip that ends the last video of a playing room. *)
Theorem request_keeps_clock_invariant (w : World) (now : Z)
    (request : RoomRequest) :
  ClockInvariant (room w) →
  (requestType request = TSkipRequest →
   isPlaying (room w) = false ∨ queue (room w) ≠ []) →
  ClockInvariant (room (processRequest now request w).2).
Proof.
  intros Hinv Hskip. destruct clock_stable as (Hb & Hr).
  assert (∀ A (c : M World A), (∀ x, Keeps (projIs clock x) c) →
            Keeps (λ w, ClockInvariant (room w)) c) as Hlift.
  { intros A c Hc'. apply (Keeps_proj_pred clock ClockInvariant); [done|].
    apply ClockInvariant_clock. }
  unfold processRequest. simpl.
  destruct request;
    try (apply (processRequestWith_room ClockInvariant); [|done];
         apply Hlift; intros x;
         first [ by apply promoteUser_proj
               | apply handle_proj_plain;
                   [done|by apply (bool_decide_unpack _)|];
                 intros; by apply nested_undo_proj ]).
  - (* play or pause *)
    apply (processRequestWith_room ClockInvariant); [|done].
    change (Keeps (λ w, ClockInvariant (room w)) (playback now client state)).
    unfold playback. apply Keeps_bind; [|by intros _ ?].
    destruct state; intros w1 Hw1;
      [by apply play_ClockInvariant|by apply pause_ClockInvariant].
  - (* skip *)
    apply processRequestWith_cases; [done|]. intros w1 Hroom.
    change (ClockInvariant (room (skip now client w1).2)).
    apply (ClockInvariant_clock (room w1)); [|by rewrite Hroom].
    apply skip_clock. rewrite Hroom. by apply Hskip.
Qed.

End Invariants.

Lemma request_keeps_clock_invariant_witness :
  ClockInvariant (room (processRequest 2010 (SkipRequest "1")
                          Demo.threeVideosPlaying).2).
Proof.
  apply (request_keeps_clock_invariant Demo.threeVideosPlaying 2010
           (SkipRequest "1")).
  - by vm_compute.
  - intros _. right. by vm_compute.
Defined.

(** ** The tick *)

Section Tick.
Context {C : Collaborators}.

Lemma bind_Ok {St A B} (c : M St A) (k : A → M St B) (s s1 : St) (a : A) :
  c s = (Ok a, s1) → bind c k s = k a s1.
Proof. intros H. unfold bind. by rewrite H. Qed.

(** What [dequeueNext] leaves alone, and what it does to the queue. *)
Lemma dequeueNext_effect (b : bool) (w : World) :
  ∃ w1,
    when b dequeueNext w = (Ok tt, w1)
    ∧ votes (room w1) = votes (room w)
    ∧ queueMode (room w1) = queueMode (room w)
    ∧ realusers (room w1) = realusers (room w)
    ∧ keepAlivePing (room w1) = keepAlivePing (room w)
    ∧ (queue (room w1) = queue (room w)
       ∨ ∃ v, currentSource (room w1) = Some v
              ∧ queue (room w) = v :: queue (room w1)).
Proof.
  destruct b; [|exists w; unfold when, ret; repeat split; by left].
  unfold when, dequeueNext. run.
  destruct (queue (room w)) as [|v rest] eqn:Hqueue; simpl.
  - destruct (currentSource (room w)); simpl;
      [destruct (isPlaying (room w)); simpl|];
      eexists; (split; [reflexivity|]); simpl; rewrite ?Hqueue;
      repeat split; by left.
  - eexists; (split; [reflexivity|]); simpl; repeat split. right. by exists v.
Qed.

(** The tick in three steps, [w1] being the state after the first: the
    fields the theorems below read. *)
Lemma update_fields (w : World) (now : Z) :
  ∃ w1,
    when (match currentSource (room w) with
          | None => true
          | Some v => pastEnd (realPlaybackPosition now (room w)) v
          end) dequeueNext w = (Ok tt, w1)
    ∧ votes (room w1) = votes (room w)
    ∧ (queue (room w1) = queue (room w)
       ∨ ∃ v, currentSource (room w1) = Some v
              ∧ queue (room w) = v :: queue (room w1))
    ∧ queue (room (update now w).2) =
        (if bool_decide (queueMode (room w) = Vote)
         then orderByDesc (voteKey (room w)) (queue (room w1))
         else queue (room w1))
    ∧ currentSource (room (update now w).2) = currentSource (room w1)
    ∧ playbackPosition (room (update now w).2) = playbackPosition (room w1)
    ∧ playbackStart (room (update now w).2) = playbackStart (room w1)
    ∧ isPlaying (room (update now w).2) = isPlaying (room w1)
    ∧ keepAlivePing (room (update now w).2) =
        (if (0 <? length (realusers (room w)))%nat then now
         else keepAlivePing (room w)).
Proof.
  remember (update now w) as res eqn:Hres.
  unfold update in Hres. unfold bind at 1, getRoom at 1 in Hres.
  match type of Hres with context [when ?b dequeueNext] =>
    destruct (dequeueNext_effect b w)
      as (w1 & Hrun & Hvotes & Hmode & Husers & Hping & Hqueue)
  end.
  exists w1. split; [done|]. split; [done|]. split; [done|].
  rewrite (bind_Ok _ _ _ _ _ Hrun) in Hres.
  unfold bind at 1, getRoom at 1 in Hres.
  assert (length (users (room w1)) = length (realusers (room w))) as Hlen.
  { unfold users. by rewrite length_fmap, Husers. }
  rewrite Hlen in Hres.
  assert (voteKey (room w) = voteKey (room w1)) as ->.
  { unfold voteKey. by rewrite Hvotes. }
  rewrite <- Hmode, <- Hping. clear Hrun Hvotes Hmode Husers Hping Hqueue Hlen.
  subst res.
  destruct (0 <? length (realusers (room w)))%nat; run;
    destruct (bool_decide (queueMode (room w1) = Vote)); simpl; try done;
    by match goal with |- context [if ?b then _ else _] => destruct b end.
Qed.

End Tick.

(** ** Playback *)

Section Playback.
Context {C : Collaborators}.


(** X12.  A pause does not move the playback: the effective position read at any
    later time is the effective position at the time of the pause. *)
Theorem pause_keeps_effective_position (w : World) (now later : Z) :
  isPlaying (room w) = true →
  realPlaybackPosition later (room (pause now w).2) =
    realPlaybackPosition now (room w).
Proof.
  intros Hplaying. unfold pause, realPlaybackPosition. run.
  rewrite Hplaying. simpl. done.
Qed.

(** X13.  [seek] without a value does nothing at all.  With a value it stores
    the value, publishes the former stored position, and leaves
    [playbackStart] alone: in a playing room the effective position right
    after a seek to [v] is [v] plus the time played since the last play. *)
Theorem seek_keeps_clock_running (w : World) (c : ClientId) (v : Q) (now : Z) :
  seek c None w = (Ok tt, w)
  ∧ (let w' := (seek c (Some v) w).2 in
     playbackPosition (room w') = v
     ∧ playbackStart (room w') = playbackStart (room w)
     ∧ isPlaying (room w') = isPlaying (room w)
     ∧ last (published w') =
         Some ("room:" +:+ name (room w),
               MsgEvent (SeekRequest c (Some v)) (getUserInfo (room w) c)
                 (Some {| ctx_video := None; ctx_videos := None;
                          ctx_prevPosition := Some (playbackPosition (room w));
                          ctx_queueIdx := None |}))
     ∧ ∀ start, playbackStart (room w) = Some start →
         realPlaybackPosition now (room w') = Qplus v (Qmake (now - start) 1000)).
Proof.
  split; [done|]. unfold seek, realPlaybackPosition. run.
  rewrite last_snoc. repeat split; try done. by intros start ->.
Qed.

(** X14.  When the tick moves on to the next video of a playing room, it sets
    the stored position to 0 but leaves [playbackStart] alone: the
    effective position of the new video starts at the time played since
    the last play, not at 0. *)
Theorem update_advance_keeps_start (w : World) (now start : Z)
    (cur next : Video) (rest : list Video) :
  currentSource (room w) = Some cur →
  pastEnd (realPlaybackPosition now (room w)) cur = true →
  queue (room w) = next :: rest →
  queueMode (room w) ≠ Vote →
  playbackStart (room w) = Some start →
  let w' := (update now w).2 in
  currentSource (room w') = Some next
  ∧ queue (room w') = rest
  ∧ playbackPosition (room w') = 0%Q
  ∧ realPlaybackPosition now (room w') = Qplus 0 (Qmake (now - start) 1000).
Proof.
  intros Hcur Hover Hqueue Hmode Hstart. cbv zeta.
  destruct (update_fields w now)
    as (w1 & Hrun & _ & _ & Hq & Hc & Hpos & Hst & _).
  rewrite Hcur, Hover in Hrun.
  rewrite bool_decide_eq_false_2 in Hq by done.
  unfold realPlaybackPosition. rewrite Hq, Hc, Hpos, Hst.
  clear Hq Hc Hpos Hst Hover.
  unfold when, dequeueNext in Hrun. run. rewrite Hqueue in Hrun.
  simpl in Hrun. injection Hrun as <-. simpl. by rewrite Hstart.
Qed.

End Playback.


Lemma pause_keeps_effective_position_witness :
  realPlaybackPosition 5000 (room (pause 2010 Demo.threeVideosPlaying).2) =
    realPlaybackPosition 2010 (room Demo.threeVideosPlaying).
Proof.
  apply (pause_keeps_effective_position Demo.threeVideosPlaying 2010 5000).
  by vm_compute.
Defined.

Lemma update_advance_keeps_start_witness :
  let w := Demo.threeVideosPlaying in
  let w' := (update 200000 w).2 in
  currentSource (room w') = Some (Demo.demoVideo "youtube" "B")
  ∧ queue (room w') = [Demo.demoVideo "youtube" "C"]
  ∧ playbackPosition (room w') = 0%Q
  ∧ realPlaybackPosition 200000 (room w') = Qplus 0 (Qmake (200000 - 10) 1000).
Proof.
  apply (update_advance_keeps_start Demo.threeVideosPlaying 200000 10
           (Demo.demoVideo "youtube" "A") (Demo.demoVideo "youtube" "B")
           [Demo.demoVideo "youtube" "C"]); by vm_compute.
Defined.

(** ** Votes, staleness, sync and participants *)

Section TickProperties.
Context {C : Collaborators}.

Lemma insertDesc_filter {A} (key : A → nat) (k : nat) (x : A) (l : list A) :
  filter (λ y, key y = k) (insertDesc key x l) = filter (λ y, key y = k) (x :: l).
Proof.
  induction l as [|y l IH]; simpl; [done|].
  destruct (key x <? key y)%nat eqn:Hlt; [|done].
  apply Nat.ltb_lt in Hlt.
  rewrite filter_cons, IH, !filter_cons.
  repeat case_decide; try done; lia.
Qed.

Lemma orderByDesc_filter {A} (key : A → nat) (k : nat) (l : list A) :
  filter (λ y, key y = k) (orderByDesc key l) = filter (λ y, key y = k) l.
Proof.
  unfold orderByDesc. induction l as [|x l IH]; simpl; [done|].
  by rewrite insertDesc_filter, !filter_cons, IH.
Qed.

Lemma insertDesc_sorted {A} (key : A → nat) (x : A) (l : list A) :
  StronglySorted (λ a b, key b ≤ key a)%nat l →
  StronglySorted (λ a b, key b ≤ key a)%nat (insertDesc key x l).
Proof.
  induction 1 as [|y l Hsorted IH Hall]; simpl.
  - repeat constructor.
  - destruct (key x <? key y)%nat eqn:Hlt.
    + apply Nat.ltb_lt in Hlt. constructor; [done|].
      rewrite insertDesc_Permutation. constructor; [lia|done].
    + apply Nat.ltb_ge in Hlt. constructor; [by constructor|].
      constructor; [done|].
      eapply Forall_impl; [exact Hall|]. simpl. intros z Hz. lia.
Qed.

Lemma orderByDesc_sorted {A} (key : A → nat) (l : list A) :
  StronglySorted (λ a b, key b ≤ key a)%nat (orderByDesc key l).
Proof.
  unfold orderByDesc. induction l as [|x l IH]; simpl; [constructor|].
  by apply insertDesc_sorted.
Qed.

(** X15.  In a room whose queue mode is [Vote], the queue after a tick is in
    descending order of votes; it holds the videos it held before (less
    the head, when the tick moved on to it), and videos with the same
    number of votes keep their order. *)
Theorem update_vote_order (w : World) (now : Z) :
  queueMode (room w) = Vote →
  let w' := (update now w).2 in
  let count := voteKey (room w) in
  StronglySorted (λ a b, count b ≤ count a)%nat (queue (room w'))
  ∧ (queue (room w') ≡ₚ queue (room w)
     ∨ ∃ v, currentSource (room w') = Some v
            ∧ v :: queue (room w') ≡ₚ queue (room w))
  ∧ ∀ k, filter (λ v, count v = k) (queue (room w'))
           `suffix_of` filter (λ v, count v = k) (queue (room w)).
Proof.
  intros Hmode. cbv zeta.
  destruct (update_fields w now) as (w1 & _ & _ & Hq0 & Hq & Hcur & _).
  rewrite bool_decide_eq_true_2 in Hq by done.
  rewrite Hq, Hcur. clear Hq Hcur.
  split; [apply orderByDesc_sorted|]. split.
  - destruct Hq0 as [Hsame|(v & Hv & Hcons)].
    + left. rewrite <- Hsame. apply orderByDesc_Permutation.
    + right. exists v. split; [done|].
      rewrite Hcons. apply Permutation_skip, orderByDesc_Permutation.
  - intros k. rewrite orderByDesc_filter.
    destruct Hq0 as [Hsame|(v & _ & Hcons)]; [by rewrite Hsame|].
    rewrite Hcons, filter_cons. case_decide; [|reflexivity].
    apply suffix_cons_r. reflexivity.
Qed.

Lemma quot_seconds (a : Z) :
  (240 <? a `quot` 1000)%Z = bool_decide (241000 ≤ a)%Z.
Proof.
  destruct (decide (241000 ≤ a)%Z) as [Hle|Hlt].
  - rewrite bool_decide_eq_true_2 by done. apply Z.ltb_lt.
    assert (241 ≤ a `quot` 1000)%Z; [|lia].
    apply Z.quot_le_lower_bound; lia.
  - rewrite bool_decide_eq_false_2 by done. apply Z.ltb_ge.
    destruct (decide (0 ≤ a)%Z).
    + assert (a `quot` 1000 < 241)%Z; [|lia].
      apply Z.quot_lt_upper_bound; lia.
    + assert (a `quot` 1000 ≤ 0)%Z; [|lia].
      rewrite <- (Z.opp_involutive a), Z.quot_opp_l by lia.
      assert (0 ≤ (- a) `quot` 1000)%Z; [|lia].
      apply Z.quot_pos; lia.
Qed.

(** X16.  A tick of a room with at least one participant renews the keep-alive:
    the room is stale from 241 whole seconds after the tick on, and not
    before.  A tick of an empty room leaves the staleness as it was. *)
Theorem update_renews_keepalive (w : World) (now later : Z) :
  isStale later (room (update now w).2) =
    if bool_decide (realusers (room w) = []) then isStale later (room w)
    else bool_decide (241000 ≤ later - now)%Z.
Proof.
  destruct (update_fields w now) as (w1 & _ & _ & _ & _ & _ & _ & _ & _ & Hping).
  unfold isStale, ROOM_UNLOAD_AFTER. rewrite Hping. clear Hping.
  destruct (realusers (room w)) as [|u us]; simpl.
  - reflexivity.
  - apply quot_seconds.
Qed.

(** X17.  After the sync of a room with something dirty the bus holds the room
    state as it now is, one message has gone out, and a further sync does
    nothing until something is marked dirty again. *)
Theorem sync_settles (w : World) :
  dirty (room w) ≠ ∅ →
  let w1 := (sync w).2 in
  (sync w).1 = Ok tt
  ∧ kv w1 !! ("room:" +:+ name (room w1)) = Some (roomState (room w1))
  ∧ length (published w1) = S (length (published w))
  ∧ sync w1 = (Ok tt, w1).
Proof.
  intros Hdirty. cbv zeta. rewrite (sync_dirty w Hdirty). simpl.
  split; [done|]. split; [by rewrite lookup_insert_eq|].
  split; [rewrite length_app; simpl; lia|].
  by apply sync_clean.
Qed.

End TickProperties.

Section Participants.
Context {C : Collaborators}.

Lemma updateInfo_keeps_id (info : ClientInfo) (u u' : RoomUser) o :
  updateInfo info u = (o, u') → ru_id u' = ru_id u.
Proof.
  unfold updateInfo. run.
  destruct (truthyNum (ci_user_id info)); simpl.
  - destruct (usermanager_getUser _); simpl;
      [destruct (ci_status info); simpl|]; by intros [= _ <-].
  - destruct (truthyStr (ci_username info)); simpl;
      destruct (ci_status info); simpl; by intros [= _ <-].
Qed.

Lemma find_users_None (r : Room) (l : list RoomUser) (id : ClientId) :
  (∀ u, u ∈ l → ru_id u ≠ id) →
  List.find (λ u, String.eqb (rui_id u) id)
    ((λ u, {| rui_id := ru_id u; rui_name := username u;
              rui_isLoggedIn := isLoggedIn u; rui_status := playerStatus u;
              rui_role := getRole r u |}) <$> l) = None.
Proof.
  induction l as [|u l IH]; intros Hall; simpl; [done|].
  destruct (String.eqb (ru_id u) id) eqn:Heq.
  - apply String.eqb_eq in Heq. exfalso. by apply (Hall u); [left|].
  - apply IH. intros u' Hu'. apply Hall. by right.
Qed.

Lemma findIndex_last_new {A} (p : A → bool) (l : list A) (x : A) :
  (∀ y, y ∈ l → p y = false) → p x = true →
  findIndex p (l ++ [x]) = Some (length l).
Proof.
  intros Hall Hx. induction l as [|y l IH]; simpl; [by rewrite Hx|].
  rewrite (Hall y) by left. rewrite IH; [done|].
  intros z Hz. apply Hall. by right.
Qed.

Lemma delete_last_new {A} (l : list A) (x : A) :
  delete (length l) (l ++ [x]) = l.
Proof. induction l as [|y l IH]; simpl; [done|]. by rewrite IH. Qed.

(** X18.  A client whose id no participant has joins and then leaves: the list
    of participants is what it was before, and since the participant is
    removed before the event is made, the leave event names no user. *)
Theorem join_then_leave (w w1 : World) (c : ClientId) (info : ClientInfo) :
  ci_id info ∉ ru_id <$> realusers (room w) →
  joinRoom c info w = (Ok tt, w1) →
  ∃ w2,
    leaveRoom (ci_id info) w1 = (Ok tt, w2)
    ∧ length (realusers (room w1)) = S (length (realusers (room w)))
    ∧ realusers (room w2) = realusers (room w)
    ∧ last (published w2) =
        Some ("room:" +:+ name (room w),
              MsgEvent (LeaveRequest (ci_id info)) None None)
    ∧ F_users ∈ dirty (room w2).
Proof.
  intros Hnew.
  assert (∀ u, u ∈ realusers (room w) → ru_id u ≠ ci_id info) as Hfresh.
  { intros u Hu Hid. apply Hnew. rewrite <- Hid. by apply list_elem_of_fmap_2. }
  clear Hnew. unfold joinRoom, liftUser.
  destruct (updateInfo info (newRoomUser (ci_id info))) as [[[]| |] u'] eqn:Hinfo;
    run; [|done..].
  apply updateInfo_keeps_id in Hinfo. simpl in Hinfo.
  intros [= <-]. unfold leaveRoom. run.
  rewrite findIndex_last_new; cycle 1.
  { intros y Hy. apply String.eqb_neq. by apply Hfresh. }
  { apply String.eqb_eq. done. }
  simpl. rewrite delete_last_new. eexists. split; [reflexivity|]. simpl.
  split; [rewrite length_app; simpl; lia|]. split; [done|].
  split; [|set_solver].
  rewrite last_snoc. unfold getUserInfo, users. simpl.
  by rewrite find_users_None.
Qed.

(** X19.  Withdrawing a vote always succeeds; afterwards the client is not among
    the voters of the video, the votes of every other video are as they
    were, and no entry has been made or dropped (an entry that becomes
    empty stays). *)
Theorem vote_withdraw (w : World) (c : ClientId) (video : VideoId) :
  let key := vi_service video +:+ vi_id video in
  let w' := (vote c video false w).2 in
  (vote c video false w).1 = Ok tt
  ∧ (∀ voters, votes (room w') !! key = Some voters → c ∉ voters)
  ∧ (∀ k, k ≠ key → votes (room w') !! k = votes (room w) !! k)
  ∧ dom (votes (room w')) = dom (votes (room w)).
Proof.
  cbv zeta. unfold vote. run.
  destruct (votes (room w) !! (vi_service video +:+ vi_id video)) as [old|] eqn:Hentry;
    simpl.
  - split; [done|]. split.
    + intros voters. rewrite lookup_insert_eq. intros [= <-]. set_solver.
    + split; [intros k Hk; by rewrite lookup_insert_ne|].
      apply dom_insert_lookup_L. by rewrite Hentry.
  - split; [done|]. split; [|done]. intros voters. by rewrite Hentry.
Qed.

(** X20.  A successful [PromoteRequest] for a logged-in participant who is not
    the owner, to a role from registered user to administrator, leaves the
    participant with exactly that role. *)
Theorem promote_sets_role (w w' : World) (now : Z) (c target : ClientId)
    (role : Role) (tu : RoomUser) (usr : User) :
  getUser (room w) target = Some tu →
  ru_user tu = Some usr →
  ru_user_id tu = Some (u_id usr) →
  u_id usr ≠ 0%Z →
  isOwner (room w) tu = false →
  role ∈ [RegisteredUser; TrustedUser; Moderator; Administrator] →
  processRequest now (PromoteRequest c target role) w = (Ok tt, w') →
  getUser (room w') target = Some tu ∧ getRole (room w') tu = role.
Proof.
  intros Htarget Husr Huid Hnz Howner Hrole.
  unfold processRequest, processRequestN.
  rewrite processRequestWith_unguarded by done. simpl.
  unfold promoteUser. run. rewrite Htarget. simpl.
  destruct (getUser (room w) c) as [cu|]; run; [|done].
  destruct (grantsCheck _ _ _); run; [|done].
  assert (isLoggedIn tu = true) as Hlogged.
  { unfold isLoggedIn. rewrite Huid. simpl. by apply negb_true_iff, Z.eqb_neq. }
  assert (∀ r', owner r' = owner (room w) →
            getRole r' tu =
            if bool_decide (u_id usr ∈ administrators (userRoles r')) then Administrator
            else if bool_decide (u_id usr ∈ moderators (userRoles r')) then Moderator
            else if bool_decide (u_id usr ∈ trustedUsers (userRoles r')) then TrustedUser
            else RegisteredUser) as Hget.
  { intros r' Hsame. unfold getRole.
    assert (isOwner r' tu = isOwner (room w) tu) as ->
      by (unfold isOwner; by rewrite Hsame).
    by rewrite Howner, Husr, Hlogged. }
  assert (∀ (b : bool) (c1 : M World unit) (w0 : World),
            (∀ w1, c1 w0 = (Ok tt, w1) → room w1 = room w0) →
            ∀ o w1, when b c1 w0 = (o, w1) → o = Ok tt → room w1 = room w0)
    as Hwhen.
  { intros [] c1 w0 Hc1 o w1; simpl; [|by intros [= <- <-]].
    intros Hrun ->. by apply Hc1. }
  rewrite !elem_of_cons, elem_of_nil in Hrole.
  match goal with |- context [(if ?b then ?c1 else _) ?w0] =>
    destruct ((if b then c1 else (λ s, (Ok tt, s))) w0) as [[[]| |] w1] eqn:Hdemote;
      [|done..];
    assert (room w1 = room w) as Hroom
  end.
  { destruct (roleRank role <? roleRank (getRole (room w) tu))%Z;
      [|by injection Hdemote as <-].
    destruct (getRole (room w) tu); try done;
      destruct (grantsCheck _ _ _); try done; by injection Hdemote as <-. }
  destruct (bool_decide (getRole (room w) tu = UnregisteredUser)); [done|].
  simpl. rewrite Hroom, Huid. simpl. clear Hdemote.
  destruct Hrole as [->|[->|[->|[->|[]]]]]; simpl;
    intros [= <-]; simpl; (split; [done|]);
    rewrite Hget by done; simpl;
    repeat (rewrite bool_decide_eq_false_2 by set_solver);
    repeat (rewrite bool_decide_eq_true_2 by set_solver); done.
Qed.

(** X21.  An info without a user id but with a name makes the room user a
    guest of that name: no user id, no cached user, not logged in.  The
    user store is not asked, so this cannot fail. *)
Theorem updateInfo_guest (u : RoomUser) (info : ClientInfo) (n : string) :
  truthyNum (ci_user_id info) = false →
  ci_username info = Some n →
  n ≠ "" →
  ∃ u',
    updateInfo info u = (Ok tt, u')
    ∧ ru_user_id u' = None
    ∧ ru_user u' = None
    ∧ isLoggedIn u' = false
    ∧ username u' = n
    ∧ ru_id u' = ru_id u
    ∧ playerStatus u' = default (playerStatus u) (ci_status info).
Proof.
  intros Hid Hname Hn. unfold updateInfo. rewrite Hid, Hname. simpl.
  assert (String.eqb n "" = false) as -> by by apply String.eqb_neq.
  run. destruct (ci_status info); simpl; eexists; (split; [reflexivity|done]).
Qed.


End Participants.

Lemma update_vote_order_witness :
  let w := Demo3.voteRoom in
  let w' := (update 7 w).2 in
  let count := voteKey (room w) in
  StronglySorted (λ a b, count b ≤ count a)%nat (queue (room w'))
  ∧ (queue (room w') ≡ₚ queue (room w)
     ∨ ∃ v, currentSource (room w') = Some v
            ∧ v :: queue (room w') ≡ₚ queue (room w))
  ∧ ∀ k, filter (λ v, count v = k) (queue (room w'))
           `suffix_of` filter (λ v, count v = k) (queue (room w)).
Proof. apply (update_vote_order Demo3.voteRoom 7). by vm_compute. Defined.

Lemma sync_settles_witness :
  let w := Demo.threeVideos in
  let w1 := (sync w).2 in
  (sync w).1 = Ok tt
  ∧ kv w1 !! ("room:" +:+ name (room w1)) = Some (roomState (room w1))
  ∧ length (published w1) = S (length (published w))
  ∧ sync w1 = (Ok tt, w1).
Proof.
  apply (sync_settles Demo.threeVideos).
  apply (bool_decide_unpack _). by vm_compute.
Defined.

Lemma join_then_leave_witness :
  ∃ w2,
    leaveRoom "2" (joinRoom "2" (Demo.guest "2") Demo.lobby).2 = (Ok tt, w2)
    ∧ length (realusers (room (joinRoom "2" (Demo.guest "2") Demo.lobby).2)) =
        S (length (realusers (room Demo.lobby)))
    ∧ realusers (room w2) = realusers (room Demo.lobby)
    ∧ last (published w2) =
        Some ("room:" +:+ name (room Demo.lobby),
              MsgEvent (LeaveRequest "2") None None)
    ∧ F_users ∈ dirty (room w2).
Proof.
  apply (join_then_leave Demo.lobby (joinRoom "2" (Demo.guest "2") Demo.lobby).2
           "2" (Demo.guest "2")).
  - apply (bool_decide_unpack _). by vm_compute.
  - by vm_compute.
Defined.

Lemma promote_sets_role_witness :
  let w' := (processRequest (C := Demo3.permissive) 1
               (PromoteRequest "9" "7" Moderator) Demo3.staffRoom).2 in
  getUser (room w') "7" = Some Demo3.memberUser
  ∧ getRole (room w') Demo3.memberUser = Moderator.
Proof.
  apply (promote_sets_role (C := Demo3.permissive) Demo3.staffRoom
           (processRequest (C := Demo3.permissive) 1
              (PromoteRequest "9" "7" Moderator) Demo3.staffRoom).2
           1 "9" "7" Moderator Demo3.memberUser
           {| u_id := 7; u_username := "registered" |});
    try (by vm_compute).
  apply (bool_decide_unpack _). by vm_compute.
Defined.

Lemma updateInfo_guest_witness :
  ∃ u',
    updateInfo (C := Demo.demoCollaborators) (Demo.guest "1") Demo2.ownerUser
      = (Ok tt, u')
    ∧ ru_user_id u' = None
    ∧ ru_user u' = None
    ∧ isLoggedIn u' = false
    ∧ username u' = "guest"
    ∧ ru_id u' = "9"
    ∧ playerStatus u' = StatusNone.
Proof.
  apply (updateInfo_guest (C := Demo.demoCollaborators) Demo2.ownerUser
           (Demo.guest "1") "guest"); by vm_compute.
Defined.
